(** * Heat-method distance solver (miniapps/shiftedBC/distfunction.cpp)

    A shallow embedding of [DistanceFunction]: its constructor (mesh-scale
    estimate and essential dofs), [DiffuseField], [GetPrecondtioner] and
    [ComputeDistance].

    Numbers.  A C++ [double] is read as an exact rational ([Q]): the
    development is about the formulas and the control flow of the
    program, not about rounding, NaN or overflow.  Division is the exact
    one; it agrees with the program where the divisor is not zero, that
    is for a mesh with at least one zone and an order of at least one.
    A C++ [int] is a [Z] of the 32-bit signed range; a wider integer
    stored in an [int] is reduced into that range ([to_int]).

    Fields.  A [Vector], [GridFunction] or linear form is the list of its
    local entries.  An [Array<int>] is a [list Z].

    The finite-element library (mesh, spaces, assembly, smoothers,
    preconditioners, conjugate gradient) and MPI are not part of the
    translated file: they appear as the fields of one record of
    collaborators, and every call to the linear-algebra ones leaves an
    event in a trace, so that statements can speak about which calls were
    made, in which order and with which arguments. *)

From Stdlib Require Import QArith Qminmax Lqa ZArith String.
From stdpp Require Import base list.

Local Open Scope Q_scope.

(** ** Doubles and vectors *)

Abbreviation double := Q (only parsing).

(** [x < y] on doubles, as a boolean. *)
Definition dlt (x y : double) : bool := negb (Qle_bool y x).

Abbreviation Vector := (list Q) (only parsing).

(** [v(i)]: unchecked read.  Every loop of the file runs inside the size
    of the vector it writes; the default is only there to make the read
    total. *)
Definition Vector_get (v : Vector) (i : nat) : double := default 0 (v !! i).

(** [v(i) = x] *)
Definition Vector_set (v : Vector) (i : nat) (x : double) : Vector := <[i:=x]> v.

(** [for (int i = 0; i < n; i++) body], threading the state [s]. *)
Definition for_loop {S : Type} (n : nat) (body : nat -> S -> S) (s : S) : S :=
  fold_left (fun s i => body i s) (seq 0 n) s.

(** ** The peak transform (ComputeDistance, lines 114-121) *)

(** [((x < 0.0) || (x > 1.0)) ? 0.0 : 4.0 * x * (1.0 - x)] *)
Definition peak (x : double) : double :=
  if dlt x 0 || dlt 1 x then 0 else 4 * x * (1 - x).

(** The loop over the nodal values of [source]. *)
Definition transform_loop (source : Vector) : Vector :=
  for_loop (length source)
           (fun i source => let x := Vector_get source i in
                            Vector_set source i (peak x))
           source.

(** ** Integers *)

(** The value an [int] holds after [int n = z;] for a wider integer [z]:
    [z] reduced modulo 2^32 into [-2^31, 2^31). *)
Definition to_int (z : Z) : Z :=
  ((z + 2147483648) mod 4294967296 - 2147483648)%Z.

(** ** What the file takes from the library *)

(** Modelled from the spec: [Geometry::Type] is declared in the library
    headers, not in the translated file.  The constructor names five cell
    shapes (segment, quadrilateral, triangle, hexahedron, tetrahedron);
    the others stand for "any other cell topology". *)
Inductive Geometry : Type :=
  | INVALID | POINT | SEGMENT | TRIANGLE | SQUARE | TETRAHEDRON | CUBE | PRISM.

(** What the constructor reads from the [ParMesh] of one rank. *)
Record ParMesh : Type := {
  Dimension : Z;
  GetNE : nat;                               (* local zones *)
  GetNE_int : (Z.of_nat GetNE <=? 2147483647)%Z = true;     (* [int GetNE()] *)
  GetElementVolume : nat -> double;
  GetElementBaseGeometry : nat -> Geometry;
  GetGlobalNE : Z;                           (* zones over all ranks, a [long] *)
  bdr_attributes : list Z
}.

(** [fec(order, pmesh.Dimension())] and [pfes(&pmesh, &fec)]. *)
Record H1_FECollection : Type := { fec_order : Z; fec_dim : Z }.
Record ParFiniteElementSpace : Type := {
  GetMesh : ParMesh;
  FEColl : H1_FECollection
}.

(** The two preconditioners [GetPrecondtioner] can build. *)
Inductive Solver : Type :=
  | AmgXSolver (verbose : bool)
  | HypreBoomerAMG.

(** The collaborators: libm, the build configuration, the finite-element
    library and the other MPI ranks. *)
Record Library : Type := {
  (* build configuration: [#if defined(MFEM_USE_AMGX)] *)
  MFEM_USE_AMGX : bool;
  (* libm *)
  sqrt : double -> double;
  pow : double -> double -> double;
  (* fields on a space *)
  Coefficient : Type;
  allocated : ParFiniteElementSpace -> Vector;   (* a grid function as allocated *)
  ProjectCoefficient : ParFiniteElementSpace -> Coefficient -> Vector;
  GetEssentialTrueDofs : ParFiniteElementSpace -> list Z -> list Z;
  (* DiffuseField *)
  Laplacian_Width : ParFiniteElementSpace -> nat;
  GetTrueVector : ParFiniteElementSpace -> Vector -> Vector;
  SetFromTrueDofs : ParFiniteElementSpace -> Vector -> Vector;
  (* [HypreSmoother(A, type, relax_times)], then [Mult(b, x)] in iterative mode *)
  HypreSmoother_Mult : ParFiniteElementSpace -> Z -> Z -> Vector -> Vector -> Vector;
  (* assembly *)
  BilinearForm : Type;
  Operator : Type;
  DomainLF_Assemble : ParFiniteElementSpace -> Vector -> Vector;
  (* the normalized gradient of a field against the test functions *)
  DomainLFGrad_Assemble : ParFiniteElementSpace -> Vector -> Z -> Vector;
  Mass_Diffusion_Assemble : ParFiniteElementSpace -> double -> BilinearForm;
  Diffusion_Assemble : ParFiniteElementSpace -> BilinearForm;
  (* [a.FormLinearSystem(ess_tdof_list, x, b, A, X, B)] gives [(A, X, B)] *)
  FormLinearSystem :
    BilinearForm -> list Z -> Vector -> Vector -> Operator * Vector * Vector;
  (* [cg.Mult(B, X)] with the tolerance, iteration cap, preconditioner and
     operator set before the call; gives the new [X] *)
  CG_Mult : double -> Z -> Solver -> Operator -> Vector -> Vector -> Vector;
  (* [a.RecoverFEMSolution(X, b, x)] gives the new [x] *)
  RecoverFEMSolution : BilinearForm -> Vector -> Vector -> Vector -> Vector;
  (* MPI: what the other ranks contribute to the two reductions *)
  peers_loc_area : list double;
  peers_d_min : list (option double)
}.

(** ** Reductions *)

(** Modelled from the spec: [Vector::Min], [MPI_Allreduce] and
    [Vector::operator-=] belong to the library.  A minimum is a double or
    plus infinity ([None]), the minimum of no value at all. *)
Definition dmin (a b : option double) : option double :=
  match a, b with
  | None, _ => b
  | _, None => a
  | Some x, Some y => Some (Qmin x y)
  end.

Definition Vector_Min (v : Vector) : option double :=
  fold_right (fun x m => dmin (Some x) m) None v.

Definition MPI_Allreduce_MIN (d_loc : option double) (peers : list (option double))
  : option double :=
  fold_right dmin None (d_loc :: peers).

Definition MPI_Allreduce_SUM (d_loc : double) (peers : list double) : double :=
  fold_left Qplus peers d_loc.

(** [v -= d].  The reduction includes the rank's own minimum, so [d] is
    plus infinity only when [v] has no entry to subtract from. *)
Definition Vector_sub_scalar (v : Vector) (d : option double) : Vector :=
  match d with
  | Some m => map (fun x => x - m) v
  | None => v
  end.

(** [a.Max()] of a non-empty [Array<int>]. *)
Definition Array_Max (a : list Z) : Z :=
  match a with
  | [] => 0%Z
  | x :: r => fold_left Z.max r x
  end.

(** ** Outcomes, the object and the trace *)

Definition newline : string := String (Ascii.ascii_of_nat 10) EmptyString.

(** The data members of [DistanceFunction]. *)
Record DistanceFunction : Type := {
  pfes : ParFiniteElementSpace;
  distance : Vector;
  source : Vector;
  diffused_source : Vector;
  t_param : double;
  use_amgx : bool;
  dx : double;
  ess_tdof_list : list Z
}.

(** Which of the three bilinear forms of [ComputeDistance] a call is for. *)
Inductive FormName : Type := form_a1 | form_a_n | form_a2.

Inductive Event : Type :=
  | Ev_ProjectCoefficient
  | Ev_Smoother_Mult (relax_times : Z)
  | Ev_FormLinearSystem (a : FormName) (ess : list Z)
  | Ev_GetPrecondtioner (prec : Solver)
  | Ev_CG_Mult (a : FormName)
  | Ev_Allreduce_MIN.

(** A call returns, or the process is aborted with a message
    ([MFEM_ABORT], [mfem_error]).  Either way the outcome carries the
    object as the call left it and the library calls it made, in order. *)
Inductive Outcome (A : Type) : Type :=
  | Ok (a : A) (d : DistanceFunction) (tr : list Event)
  | Abort (msg : string) (d : DistanceFunction) (tr : list Event).
Arguments Ok {A} a d tr.
Arguments Abort {A} msg d tr.

Definition obj_of {A : Type} (o : Outcome A) : DistanceFunction :=
  match o with Ok _ d _ => d | Abort _ d _ => d end.

Definition trace_of {A : Type} (o : Outcome A) : list Event :=
  match o with Ok _ _ tr => tr | Abort _ _ tr => tr end.

Definition returns {A : Type} (o : Outcome A) : bool :=
  match o with Ok _ _ _ => true | Abort _ _ _ => false end.

Definition M (A : Type) : Type := DistanceFunction -> Outcome A.

Definition ret {A : Type} (a : A) : M A := fun d => Ok a d [].

Definition bind {A B : Type} (m : M A) (k : A -> M B) : M B :=
  fun d => match m d with
           | Ok a d' tr =>
               match k a d' with
               | Ok b d'' tr' => Ok b d'' (tr ++ tr')
               | Abort msg d'' tr' => Abort msg d'' (tr ++ tr')
               end
           | Abort msg d' tr => Abort msg d' tr
           end.

Notation "'do' x <- m ; k" := (bind m (fun x => k))
  (at level 10, x name, m at level 100, k at level 200).
Notation "m ;; k" := (bind m (fun _ => k))
  (at level 100, k at level 200, right associativity).

Definition mfem_error {A : Type} (msg : string) : M A := fun d => Abort msg d [].

Definition emit (e : Event) : M unit := fun d => Ok tt d [e].

Definition get {A : Type} (field : DistanceFunction -> A) : M A :=
  fun d => Ok (field d) d [].

Definition update (f : DistanceFunction -> DistanceFunction) : M unit :=
  fun d => Ok tt (f d) [].

Definition with_source (v : Vector) (d : DistanceFunction) : DistanceFunction :=
  {| pfes := pfes d; distance := distance d; source := v;
     diffused_source := diffused_source d; t_param := t_param d;
     use_amgx := use_amgx d; dx := dx d; ess_tdof_list := ess_tdof_list d |}.

Definition with_diffused_source (v : Vector) (d : DistanceFunction) : DistanceFunction :=
  {| pfes := pfes d; distance := distance d; source := source d;
     diffused_source := v; t_param := t_param d;
     use_amgx := use_amgx d; dx := dx d; ess_tdof_list := ess_tdof_list d |}.

Definition with_distance (v : Vector) (d : DistanceFunction) : DistanceFunction :=
  {| pfes := pfes d; distance := v; source := source d;
     diffused_source := diffused_source d; t_param := t_param d;
     use_amgx := use_amgx d; dx := dx d; ess_tdof_list := ess_tdof_list d |}.

Definition with_ess_tdof_list (l : list Z) (d : DistanceFunction) : DistanceFunction :=
  {| pfes := pfes d; distance := distance d; source := source d;
     diffused_source := diffused_source d; t_param := t_param d;
     use_amgx := use_amgx d; dx := dx d; ess_tdof_list := l |}.

(** ** The translated file *)

Section Program.

Variable lib : Library.

(** *** DistanceFunction::DistanceFunction (lines 16-58) *)

(** Lines 24-28: the sum of the local zone volumes. *)
Definition local_area (pmesh : ParMesh) : double :=
  for_loop (GetNE pmesh)
           (fun i loc_area => loc_area + GetElementVolume pmesh i)
           0.

(** Lines 34-47: the [switch] on the base geometry of zone 0.  [None] is
    the [default:] branch. *)
Definition zone_size (geom : Geometry) (glob_area : double) (glob_zones : Z)
  : option double :=
  match geom with
  | SEGMENT => Some (glob_area / inject_Z glob_zones)
  | SQUARE => Some (sqrt lib (glob_area / inject_Z glob_zones))
  | TRIANGLE => Some (sqrt lib (2 * glob_area / inject_Z glob_zones))
  | CUBE => Some (pow lib (glob_area / inject_Z glob_zones) (1 / 3))
  | TETRAHEDRON => Some (pow lib (6 * glob_area / inject_Z glob_zones) (1 / 3))
  | _ => None
  end.

(** Lines 23-48: [dx], or the message of the abort. *)
Definition mesh_size (pmesh : ParMesh) (order : Z) : double + string :=
  let loc_area := local_area pmesh in
  let glob_area := MPI_Allreduce_SUM loc_area (peers_loc_area lib) in
  let glob_zones := to_int (GetGlobalNE pmesh) in      (* const int glob_zones *)
  match zone_size (GetElementBaseGeometry pmesh 0) glob_area glob_zones with
  | Some dx => inl (dx / inject_Z order)
  | None => inr "Unknown zone type!"%string
  end.

(** Lines 51-57: the true essential boundary dofs. *)
Definition essential_dofs (fes : ParFiniteElementSpace) : list Z :=
  let pmesh := GetMesh fes in
  if (length (bdr_attributes pmesh) =? 0)%nat then []
  else
    let ess_bdr := repeat 1%Z (Z.to_nat (Array_Max (bdr_attributes pmesh))) in
    GetEssentialTrueDofs lib fes ess_bdr.

(** The constructor: the object, or the message of the abort. *)
Definition DistanceFunction_ctor
           (pmesh : ParMesh) (order : Z) (diff_coeff : double) (use_amgx_ : bool)
  : DistanceFunction + string :=
  let fec := {| fec_order := order; fec_dim := Dimension pmesh |} in
  let fes := {| GetMesh := pmesh; FEColl := fec |} in
  match mesh_size pmesh order with
  | inr msg => inr msg
  | inl dx_ =>
      inl {| pfes := fes;
             distance := allocated lib fes;
             source := allocated lib fes;
             diffused_source := allocated lib fes;
             t_param := diff_coeff;
             use_amgx := use_amgx_;
             dx := dx_;
             ess_tdof_list := essential_dofs fes |}
  end.

(** *** DiffuseField (lines 60-82) *)

(** What the smoother leaves in [field]: lines 72-78. *)
Definition smoothed (fes : ParFiniteElementSpace) (field : Vector)
           (smooth_steps : Z) : Vector :=
  let tmp := repeat 0 (Laplacian_Width lib fes) in          (* tmp = 0.0 *)
  let fieldtrue := GetTrueVector lib fes field in
  let fieldtrue := HypreSmoother_Mult lib fes 0 smooth_steps tmp fieldtrue in
  SetFromTrueDofs lib fes fieldtrue.

Definition DiffuseField (fes : ParFiniteElementSpace) (field : Vector)
           (smooth_steps : Z) : M Vector :=
  emit (Ev_Smoother_Mult smooth_steps) ;;
  ret (smoothed fes field smooth_steps).

(** *** GetPrecondtioner (lines 84-101) *)

Definition GetPrecondtioner (use_amgx : bool) : M Solver :=
  let amgx_verbosity := false in
  if MFEM_USE_AMGX lib then
    if use_amgx then ret (AmgXSolver amgx_verbosity) else ret HypreBoomerAMG
  else
    (if use_amgx then mfem_error ("AMGX not enabled " ++ newline) else ret tt) ;;
    ret HypreBoomerAMG.

(** *** DistanceFunction::ComputeDistance (lines 103-218) *)

(** [cg.SetRelTol(1e-12); cg.SetMaxIter(100);] *)
Definition cg_rel_tol : double := 1 # 1000000000000.
Definition cg_max_iter : Z := 100.

(** What [FormLinearSystem], [cg.Mult] and [RecoverFEMSolution] leave in
    the grid function [x], for the preconditioner [prec]. *)
Definition solution (prec : Solver) (a : BilinearForm lib) (ess : list Z)
           (x b : Vector) : Vector :=
  let '(A, X, B) := FormLinearSystem lib a ess x b in
  let X := CG_Mult lib cg_rel_tol cg_max_iter prec A B X in
  RecoverFEMSolution lib a X b x.

(** [FormLinearSystem], [GetPrecondtioner], [cg.Mult], [RecoverFEMSolution]
    and [delete prec]: the sequence the three solves share. *)
Definition solve (name : FormName) (a : BilinearForm lib) (ess : list Z)
           (x b : Vector) : M Vector :=
  emit (Ev_FormLinearSystem name ess) ;;
  do amgx <- get use_amgx;
  do prec <- GetPrecondtioner amgx;
  emit (Ev_GetPrecondtioner prec) ;;
  emit (Ev_CG_Mult name) ;;
  ret (solution prec a ess x b).

(** Lines 107-110: projection and optional smoothing. *)
Definition project_and_smooth (level_set : Coefficient lib) (smooth_steps : Z)
  : M unit :=
  do fes <- get pfes;
  emit Ev_ProjectCoefficient ;;
  update (with_source (ProjectCoefficient lib fes level_set)) ;;
  if (0 <? smooth_steps)%Z then
    do src <- get source;
    do src <- DiffuseField fes src smooth_steps;
    update (with_source src)
  else ret tt.

(** Lines 112-121. *)
Definition transform_source (transform : bool) : M unit :=
  if transform then
    do src <- get source;
    update (with_source (transform_loop src))
  else ret tt.

(** Lines 177-180: the loop that fills [diffused_source]. *)
Definition average_loop (diffused_source u_neumann u_dirichlet : Vector) : Vector :=
  for_loop (length diffused_source)
           (fun i diffused_source =>
              Vector_set diffused_source i
                         ((1 # 2) * (Vector_get u_neumann i + Vector_get u_dirichlet i)))
           diffused_source.

(** Lines 131-181: step 1, the two diffusion solves and their average. *)
Definition diffuse : M unit :=
  do fes <- get pfes;
  do src <- get source;
  let b1 := DomainLF_Assemble lib fes src in
  do t <- get t_param;
  do h <- get dx;
  let dt := t * h * h in
  let a1 := Mass_Diffusion_Assemble lib fes dt in
  (* Solve with Dirichlet BC. *)
  let u_dirichlet := map (fun _ => 0) (allocated lib fes) in    (* u_dirichlet = 0.0 *)
  do ess <- get ess_tdof_list;
  do u_dirichlet <- solve form_a1 a1 ess u_dirichlet b1;
  let a_n := Mass_Diffusion_Assemble lib fes dt in
  (* Solve with Neumann BC. *)
  let u_neumann := allocated lib fes in
  update (with_ess_tdof_list []) ;;                   (* ess_tdof_list.DeleteAll() *)
  do ess <- get ess_tdof_list;
  do u_neumann <- solve form_a_n a_n ess u_neumann b1;
  do diffused <- get diffused_source;
  update (with_diffused_source (average_loop diffused u_neumann u_dirichlet)).

(** Lines 183-208: step 2, the distance from the normalized gradient. *)
Definition solve_distance : M unit :=
  do fes <- get pfes;
  do diffused <- get diffused_source;
  let b2 := DomainLFGrad_Assemble lib fes diffused (Dimension (GetMesh fes)) in
  let a2 := Diffusion_Assemble lib fes in
  let no_ess_tdofs : list Z := [] in
  do dist <- get distance;
  do dist <- solve form_a2 a2 no_ess_tdofs dist b2;
  update (with_distance dist).

(** Lines 210-215 on one vector: the local minimum, the reduction with
    the minima of the other ranks, the shift. *)
Definition rescale (peers : list (option double)) (distance : Vector) : Vector :=
  let d_min_loc := Vector_Min distance in
  let d_min_glob := MPI_Allreduce_MIN d_min_loc peers in
  Vector_sub_scalar distance d_min_glob.

Definition rescale_distance : M unit :=
  do dist <- get distance;
  emit Ev_Allreduce_MIN ;;
  update (with_distance (rescale (peers_d_min lib) dist)).

Definition ComputeDistance (level_set : Coefficient lib) (smooth_steps : Z)
           (transform : bool) : M Vector :=
  project_and_smooth level_set smooth_steps ;;
  transform_source transform ;;
  diffuse ;;
  solve_distance ;;
  rescale_distance ;;
  get distance.

End Program.

(** ** Names for the statements *)

(** The preconditioner [GetPrecondtioner] hands out when it returns. *)
Definition built_preconditioner (use_amgx : bool) : Solver :=
  if use_amgx then AmgXSolver false else HypreBoomerAMG.

(** The build can serve the preconditioner the object asks for. *)
Definition preconditioner_available (lib : Library) (d : DistanceFunction) : bool :=
  MFEM_USE_AMGX lib || negb (use_amgx d).

Definition is_Ev_CG_Mult (e : Event) : bool :=
  match e with Ev_CG_Mult _ => true | _ => false end.

Definition is_Ev_Smoother_Mult (e : Event) : bool :=
  match e with Ev_Smoother_Mult _ => true | _ => false end.

Definition is_Ev_Allreduce_MIN (e : Event) : bool :=
  match e with Ev_Allreduce_MIN => true | _ => false end.

(** The constraint sets handed to [FormLinearSystem], in call order. *)
Definition constraint_sets (tr : list Event) : list (FormName * list Z) :=
  flat_map (fun e => match e with
                     | Ev_FormLinearSystem a ess => [(a, ess)]
                     | _ => []
                     end) tr.

(** The events of lines 107-110. *)
Definition preparation_events (smooth_steps : Z) : list Event :=
  Ev_ProjectCoefficient ::
  (if (0 <? smooth_steps)%Z then [Ev_Smoother_Mult smooth_steps] else []).

Section Stages.

Variable lib : Library.
Variable d : DistanceFunction.

(** The source field when the diffusion starts: the projection, smoothed
    if [0 < smooth_steps], transformed if [transform]. *)
Definition smoothed_source (level_set : Coefficient lib) (smooth_steps : Z) : list Q :=
  let p := ProjectCoefficient lib (pfes d) level_set in
  if (0 <? smooth_steps)%Z then smoothed lib (pfes d) p smooth_steps else p.

Definition prepared_source (level_set : Coefficient lib) (smooth_steps : Z)
           (transform : bool) : list Q :=
  let s := smoothed_source level_set smooth_steps in
  if transform then transform_loop s else s.

(** The screened-diffusion system [(M + dt L) u = M source]. *)
Definition diffusion_form : BilinearForm lib :=
  Mass_Diffusion_Assemble lib (pfes d) (t_param d * dx d * dx d).

Definition diffusion_rhs (src : list Q) : list Q :=
  DomainLF_Assemble lib (pfes d) src.

(** Its solution when the dofs of [ess] are held at zero. *)
Definition dirichlet_solution (ess : list Z) (src : list Q) : list Q :=
  solution lib (built_preconditioner (use_amgx d)) diffusion_form ess
           (map (fun _ => 0) (allocated lib (pfes d))) (diffusion_rhs src).

(** Its solution with no constrained dof. *)
Definition neumann_solution (src : list Q) : list Q :=
  solution lib (built_preconditioner (use_amgx d)) diffusion_form []
           (allocated lib (pfes d)) (diffusion_rhs src).

(** The solution of [L distance = rhs(diffused)] with no constrained dof,
    started from [dist0]. *)
Definition poisson_solution (diffused dist0 : list Q) : list Q :=
  solution lib (built_preconditioner (use_amgx d)) (Diffusion_Assemble lib (pfes d)) []
           dist0
           (DomainLFGrad_Assemble lib (pfes d) diffused (Dimension (GetMesh (pfes d)))).

End Stages.

(** ** All ranks together *)

(** Lines 210-215 as the ranks run them: rank [r] holds the part [d] of the
    distance and receives the local minima of all the other ranks. *)
Definition rescale_all (ds : list (list Q)) : list (list Q) :=
  imap (fun r d => rescale (map Vector_Min (delete r ds)) d) ds.

(** ** A small instance of the collaborators

    Used to run the model on concrete data: a segment cut in two zones of
    length 1/2, order 1, one rank.  The dofs are the three nodes, a
    coefficient is given by its nodal values, the boundary dofs are the two
    end nodes.  Its linear algebra is the simplest that respects the
    constraints: the operator of every form is the identity, so a solve
    returns the right-hand side on the free dofs and the prescribed value
    on the constrained ones. *)
Module Demo.

(** Largest [r] with [r ^ k <= n], by bisection on the bits of [r]. *)
Fixpoint iroot_bits (k : Z) (n : Z) (bits : nat) (r : Z) : Z :=
  match bits with
  | O => r
  | S b =>
      let r' := (r + 2 ^ Z.of_nat b)%Z in
      iroot_bits k n b (if (r' ^ k <=? n)%Z then r' else r)
  end.

Definition iroot (k : Z) (n : Z) : Z :=
  iroot_bits k n (Z.to_nat (Z.log2_up (n + 1))) 0.

(** [root k (a/b) = iroot k (a * b^(k-1)) / b], exact on [k]-th powers. *)
Definition root (k : Z) (x : Q) : Q :=
  let a := Qnum x in
  let b := Zpos (Qden x) in
  iroot k (a * b ^ (k - 1)) # Qden x.

Definition ndofs (fes : ParFiniteElementSpace) : nat :=
  (GetNE (GetMesh fes) * Z.to_nat (fec_order (FEColl fes)) + 1)%nat.

Definition constrained (ess : list Z) (i : nat) : bool :=
  existsb (Z.eqb (Z.of_nat i)) ess.

Definition lib (amgx_build : bool) : Library := {|
  MFEM_USE_AMGX := amgx_build;
  sqrt := root 2;
  pow := fun x y => if Qeq_bool y (1 # 3) then root 3 x else x;
  Coefficient := nat -> Q;
  allocated := fun fes => repeat 0 (ndofs fes);
  ProjectCoefficient := fun fes c => map c (seq 0 (ndofs fes));
  GetEssentialTrueDofs := fun fes ess_bdr =>
    match ess_bdr with
    | [] => []
    | _ => [0%Z; Z.of_nat (ndofs fes - 1)]
    end;
  Laplacian_Width := ndofs;
  GetTrueVector := fun _ v => v;
  SetFromTrueDofs := fun _ v => v;
  HypreSmoother_Mult := fun _ _ _ _ x => x;
  BilinearForm := unit;
  Operator := unit;
  DomainLF_Assemble := fun _ u => u;
  DomainLFGrad_Assemble := fun _ u _ => u;
  Mass_Diffusion_Assemble := fun _ _ => tt;
  Diffusion_Assemble := fun _ => tt;
  FormLinearSystem := fun _ ess x b =>
    (tt,
     imap (fun i xi => if constrained ess i then xi else 0) x,
     imap (fun i bi => if constrained ess i then Vector_get x i else bi) b);
  CG_Mult := fun _ _ _ _ B _ => B;
  RecoverFEMSolution := fun _ X _ _ => X;
  peers_loc_area := [];
  peers_d_min := []
|}.

Definition pmesh : ParMesh := {|
  Dimension := 1;
  GetNE := 2;
  GetNE_int := eq_refl;
  GetElementVolume := fun _ => 1 # 2;
  GetElementBaseGeometry := fun _ => SEGMENT;
  GetGlobalNE := 2;
  bdr_attributes := [1%Z; 2%Z]
|}.

(** A level set with nodal values 1/4, 1/2 and 3. *)
Definition level_set : nat -> Q :=
  fun i => match i with O => 1 # 4 | S O => 1 # 2 | _ => 3 end.

(** The object [DistanceFunction(pmesh, 1, 1.0, use_amgx)] when the
    constructor returns; the placeholder otherwise. *)
Definition object (amgx_build use_amgx_ : bool) : DistanceFunction :=
  match DistanceFunction_ctor (lib amgx_build) pmesh 1 1 use_amgx_ with
  | inl d => d
  | inr _ =>
      {| pfes := {| GetMesh := pmesh; FEColl := {| fec_order := 1; fec_dim := 1 |} |};
         distance := []; source := []; diffused_source := [];
         t_param := 0; use_amgx := use_amgx_; dx := 0; ess_tdof_list := [] |}
  end.

End Demo.

(** ** Callers *)

(** A caller that makes the calls of [calls], one after the other, on the
    same object: the object after the last one. *)
Definition call_sequence (lib : Library)
           (calls : list (Coefficient lib * Z * bool)) (d : DistanceFunction)
  : DistanceFunction :=
  fold_left (fun d c => obj_of (ComputeDistance lib (fst (fst c)) (snd (fst c)) (snd c) d))
            calls d.

(** The preconditioners built during a call, in order. *)
Definition preconditioners (tr : list Event) : list Solver :=
  flat_map (fun e => match e with Ev_GetPrecondtioner p => [p] | _ => [] end) tr.

(** Further data for the small instance: the same segment with no boundary
    attribute (a closed curve), and the object of the instance with other
    values left in its three fields. *)
Module Demo2.

Definition closed_pmesh : ParMesh := {|
  Dimension := 1;
  GetNE := 2;
  GetNE_int := eq_refl;
  GetElementVolume := fun _ => 1 # 2;
  GetElementBaseGeometry := fun _ => SEGMENT;
  GetGlobalNE := 2;
  bdr_attributes := []
|}.

Definition used_object : DistanceFunction :=
  with_distance [1; 2; 3]
    (with_source [7; 7; 7]
       (with_diffused_source [9; 8; 7] (Demo.object false false))).

End Demo2.

(** A library with other contributions of the peers to the sum of the
    zone volumes. *)
Definition with_peers_loc_area (l : Library) (areas : list Q) : Library := {|
  MFEM_USE_AMGX := MFEM_USE_AMGX l;
  sqrt := sqrt l;
  pow := pow l;
  Coefficient := Coefficient l;
  allocated := allocated l;
  ProjectCoefficient := ProjectCoefficient l;
  GetEssentialTrueDofs := GetEssentialTrueDofs l;
  Laplacian_Width := Laplacian_Width l;
  GetTrueVector := GetTrueVector l;
  SetFromTrueDofs := SetFromTrueDofs l;
  HypreSmoother_Mult := HypreSmoother_Mult l;
  BilinearForm := BilinearForm l;
  Operator := Operator l;
  DomainLF_Assemble := DomainLF_Assemble l;
  DomainLFGrad_Assemble := DomainLFGrad_Assemble l;
  Mass_Diffusion_Assemble := Mass_Diffusion_Assemble l;
  Diffusion_Assemble := Diffusion_Assemble l;
  FormLinearSystem := FormLinearSystem l;
  CG_Mult := CG_Mult l;
  RecoverFEMSolution := RecoverFEMSolution l;
  peers_loc_area := areas;
  peers_d_min := peers_d_min l
|}.

(** A segment mesh of 2^32 + 2 zones of length 1 spread over many ranks,
    seen from a rank that owns one zone: the other ranks hold a total
    length of 2^32 + 1. *)
Module Demo3.

Definition pmesh : ParMesh := {|
  Dimension := 1;
  GetNE := 1;
  GetNE_int := eq_refl;
  GetElementVolume := fun _ => 1;
  GetElementBaseGeometry := fun _ => SEGMENT;
  GetGlobalNE := 4294967298;
  bdr_attributes := [1%Z; 2%Z]
|}.

Definition lib : Library := with_peers_loc_area (Demo.lib false) [4294967297].

End Demo3.

(** * Properties *)

(** ** Comparisons *)

Lemma dlt_true (x y : double) : dlt x y = true <-> x < y.
Proof.
  unfold dlt. rewrite negb_true_iff.
  destruct (Qle_bool y x) eqn:E.
  - apply Qle_bool_iff in E. split; [discriminate | intro; lra].
  - split; [intros _ | reflexivity].
    apply Qnot_le_lt. intro H. apply Qle_bool_iff in H. congruence.
Qed.

Lemma dlt_false (x y : double) : dlt x y = false <-> y <= x.
Proof.
  split; intro H.
  - apply Qnot_lt_le. intro L. apply dlt_true in L. congruence.
  - destruct (dlt x y) eqn:E; [apply dlt_true in E; lra | reflexivity].
Qed.

(** ** Loop lemmas *)

Lemma for_loop_S {S : Type} (n : nat) (body : nat -> S -> S) (s : S) :
  for_loop (Datatypes.S n) body s = body n (for_loop n body s).
Proof.
  unfold for_loop. rewrite seq_S, fold_left_app. reflexivity.
Qed.

(** After [n] rounds of an in-place nodal update the first [n] entries hold
    the new values and the others are untouched. *)
Lemma pointwise_loop_prefix (f : nat -> double -> double) (v : Vector) (n : nat) :
  (n <= length v)%nat ->
  let w := for_loop n (fun i u => Vector_set u i (f i (Vector_get u i))) v in
  length w = length v /\
  forall i, w !! i = if decide (i < n)%nat then f i <$> (v !! i) else v !! i.
Proof.
  induction n as [|n IH]; intros Hn; cbn zeta.
  - split; [reflexivity|]. intros i. destruct (decide (i < 0)%nat); [lia | reflexivity].
  - rewrite for_loop_S.
    destruct IH as [Hlen Hget]; [lia|].
    set (w := for_loop n _ v) in *.
    unfold Vector_set. split; [rewrite length_insert; exact Hlen|].
    intros i. destruct (decide (i = n)) as [->|Hne].
    + rewrite list_lookup_insert_eq by lia.
      destruct (decide (n < Datatypes.S n)%nat); [|lia].
      unfold Vector_get. rewrite Hget.
      destruct (decide (n < n)%nat); [lia|].
      destruct (lookup_lt_is_Some_2 v n) as [x Hx]; [lia|].
      rewrite Hx. reflexivity.
    + rewrite list_lookup_insert_ne by congruence.
      rewrite Hget.
      destruct (decide (i < n)%nat), (decide (i < Datatypes.S n)%nat); try lia; reflexivity.
Qed.

Lemma transform_loop_lookup (source : Vector) (i : nat) :
  transform_loop source !! i = peak <$> (source !! i).
Proof.
  unfold transform_loop.
  destruct (pointwise_loop_prefix (fun _ => peak) source (length source)) as [Hlen Hget]; [lia|].
  rewrite Hget. destruct (decide (i < length source)%nat) as [|Hge]; [reflexivity|].
  rewrite (lookup_ge_None_2 source i) by lia. reflexivity.
Qed.

Lemma transform_loop_map (source : Vector) : transform_loop source = map peak source.
Proof.
  apply list_eq. intros i. rewrite transform_loop_lookup.
  symmetry. apply list_lookup_fmap.
Qed.

(** ** The peak transform *)

Lemma peak_outside (x : Q) : x < 0 \/ 1 < x -> peak x = 0.
Proof.
  intros H. unfold peak.
  destruct (dlt x 0) eqn:E0; [reflexivity|].
  destruct (dlt 1 x) eqn:E1; [reflexivity|].
  apply dlt_false in E0, E1. lra.
Qed.

Lemma peak_inside (x : Q) : 0 <= x <= 1 -> peak x = 4 * x * (1 - x).
Proof.
  intros H. unfold peak.
  destruct (dlt x 0) eqn:E0; [apply dlt_true in E0; lra|].
  destruct (dlt 1 x) eqn:E1; [apply dlt_true in E1; lra|].
  reflexivity.
Qed.

Lemma peak_range (x : Q) : 0 <= peak x <= 1.
Proof.
  destruct (Qlt_le_dec x 0) as [H0|H0]; [rewrite peak_outside by auto; lra|].
  destruct (Qlt_le_dec 1 x) as [H1|H1]; [rewrite peak_outside by auto; lra|].
  rewrite peak_inside by auto.
  assert (Hpos : 0 <= x * (1 - x)) by (apply Qmult_le_0_compat; lra).
  assert (Hsq : 0 <= (2 * x - 1) * (2 * x - 1)).
  { destruct (Qlt_le_dec (2 * x - 1) 0).
    - assert (E : (2 * x - 1) * (2 * x - 1) == (1 - 2 * x) * (1 - 2 * x)) by ring.
      rewrite E. apply Qmult_le_0_compat; lra.
    - apply Qmult_le_0_compat; lra. }
  split; [lra|].
  assert (E : 4 * x * (1 - x) == 1 - (2 * x - 1) * (2 * x - 1)) by ring.
  rewrite E. lra.
Qed.

(** ** Running the model *)

Ltac run_model :=
  unfold ComputeDistance, project_and_smooth, transform_source, diffuse,
    solve_distance, rescale_distance, solve, DiffuseField, GetPrecondtioner,
    bind, get, update, emit, ret, mfem_error.

Section Execution.

Variable lib : Library.

Lemma GetPrecondtioner_returns (amgx : bool) (d : DistanceFunction) :
  MFEM_USE_AMGX lib || negb amgx = true ->
  GetPrecondtioner lib amgx d = Ok (built_preconditioner amgx) d [].
Proof.
  run_model. unfold built_preconditioner.
  destruct (MFEM_USE_AMGX lib), amgx; cbn; intros H; try discriminate; reflexivity.
Qed.

Lemma GetPrecondtioner_aborts (d : DistanceFunction) :
  MFEM_USE_AMGX lib = false ->
  GetPrecondtioner lib true d = Abort ("AMGX not enabled " ++ newline) d [].
Proof. run_model. intros ->. reflexivity. Qed.

(** The whole call, when the preconditioner can be built. *)
Lemma ComputeDistance_returns (level_set : Coefficient lib) (smooth_steps : Z)
      (transform : bool) (d : DistanceFunction) :
  preconditioner_available lib d = true ->
  let prec := built_preconditioner (use_amgx d) in
  let src := prepared_source lib d level_set smooth_steps transform in
  let u_d := dirichlet_solution lib d (ess_tdof_list d) src in
  let u_n := neumann_solution lib d src in
  let diffused := average_loop (diffused_source d) u_n u_d in
  let dist := rescale (peers_d_min lib) (poisson_solution lib d diffused (distance d)) in
  ComputeDistance lib level_set smooth_steps transform d =
    Ok dist
       {| pfes := pfes d; distance := dist; source := src;
          diffused_source := diffused; t_param := t_param d;
          use_amgx := use_amgx d; dx := dx d; ess_tdof_list := [] |}
       (preparation_events smooth_steps ++
        [Ev_FormLinearSystem form_a1 (ess_tdof_list d);
         Ev_GetPrecondtioner prec; Ev_CG_Mult form_a1;
         Ev_FormLinearSystem form_a_n [];
         Ev_GetPrecondtioner prec; Ev_CG_Mult form_a_n;
         Ev_FormLinearSystem form_a2 [];
         Ev_GetPrecondtioner prec; Ev_CG_Mult form_a2;
         Ev_Allreduce_MIN]).
Proof.
  unfold preconditioner_available, preparation_events, prepared_source,
    smoothed_source, dirichlet_solution, neumann_solution, poisson_solution,
    diffusion_form, diffusion_rhs, built_preconditioner.
  intros H. run_model.
  destruct d as [fes dist0 src0 diff0 t amgx h ess]; cbn in *.
  destruct (MFEM_USE_AMGX lib), amgx; try discriminate;
    destruct (0 <? smooth_steps)%Z, transform; reflexivity.
Qed.

(** The whole call, when it cannot. *)
Lemma ComputeDistance_aborts (level_set : Coefficient lib) (smooth_steps : Z)
      (transform : bool) (d : DistanceFunction) :
  preconditioner_available lib d = false ->
  ComputeDistance lib level_set smooth_steps transform d =
    Abort ("AMGX not enabled " ++ newline)
          (with_source (prepared_source lib d level_set smooth_steps transform) d)
          (preparation_events smooth_steps ++
           [Ev_FormLinearSystem form_a1 (ess_tdof_list d)]).
Proof.
  unfold preconditioner_available, preparation_events, prepared_source,
    smoothed_source.
  intros H. run_model.
  destruct d as [fes dist0 src0 diff0 t amgx h ess]; cbn in *.
  destruct (MFEM_USE_AMGX lib), amgx; try discriminate;
    destruct (0 <? smooth_steps)%Z, transform; reflexivity.
Qed.

End Execution.

(** ** Minima and the reduction *)

Lemma Qmin_cases (x y : Q) : Qmin x y = x \/ Qmin x y = y.
Proof. unfold Qmin, GenericMinMax.gmin. destruct (x ?= y); auto. Qed.

(** The fold of [dmin] picks one of the finite entries, below all of them. *)
Lemma fold_dmin_spec (l : list (option Q)) :
  match fold_right dmin None l with
  | None => forall x, Some x ∉ l
  | Some m => Some m ∈ l /\ forall x, Some x ∈ l -> m <= x
  end.
Proof.
  induction l as [|a l IH]; cbn.
  - intros x Hx. inversion Hx.
  - destruct a as [x|], (fold_right dmin None l) as [m|]; cbn.
    + destruct IH as [Hin Hlb]. split.
      * destruct (Qmin_cases x m) as [-> | ->]; [left | right; exact Hin].
      * intros y Hy. apply elem_of_cons in Hy as [Hy|Hy].
        -- injection Hy as ->. apply Q.le_min_l.
        -- apply Qle_trans with m; [apply Q.le_min_r | apply Hlb, Hy].
    + split; [left|].
      intros y Hy. apply elem_of_cons in Hy as [Hy|Hy].
      * injection Hy as ->. lra.
      * exfalso. exact (IH y Hy).
    + destruct IH as [Hin Hlb]. split; [right; exact Hin|].
      intros y Hy. apply elem_of_cons in Hy as [Hy|Hy]; [discriminate | auto].
    + intros y Hy. apply elem_of_cons in Hy as [Hy|Hy]; [discriminate | exact (IH y Hy)].
Qed.

Lemma Vector_Min_fold (v : list Q) : Vector_Min v = fold_right dmin None (map Some v).
Proof.
  unfold Vector_Min. induction v as [|x v IH]; [reflexivity|].
  cbn [fold_right map]. f_equal. exact IH.
Qed.

Lemma Vector_Min_spec (v : list Q) :
  match Vector_Min v with
  | None => v = []
  | Some m => m ∈ v /\ forall x, x ∈ v -> m <= x
  end.
Proof.
  rewrite Vector_Min_fold.
  pose proof (fold_dmin_spec (map Some v)) as H.
  destruct (fold_right dmin None (map Some v)) as [m|].
  - destruct H as [Hin Hlb]. split.
    + apply list_elem_of_fmap in Hin as (y & Hy & Hin). injection Hy as ->. exact Hin.
    + intros x Hx. apply Hlb. apply list_elem_of_fmap. exists x. auto.
  - destruct v as [|x v]; [reflexivity|].
    exfalso. apply (H x). cbn. left.
Qed.

(** The global minimum is a lower bound of the local entries. *)
Lemma allreduce_lower_bound (peers : list (option Q)) (v : list Q) :
  match MPI_Allreduce_MIN (Vector_Min v) peers with
  | None => v = []
  | Some g => forall x, x ∈ v -> g <= x
  end.
Proof.
  unfold MPI_Allreduce_MIN.
  pose proof (fold_dmin_spec (Vector_Min v :: peers)) as H.
  pose proof (Vector_Min_spec v) as Hv.
  destruct (fold_right dmin None (Vector_Min v :: peers)) as [g|].
  - destruct H as [_ Hlb]. intros x Hx.
    destruct (Vector_Min v) as [m|]; [|subst v; inversion Hx].
    destruct Hv as [_ Hm]. apply Qle_trans with m; [apply Hlb; left | apply Hm, Hx].
  - destruct (Vector_Min v) as [m|]; [|exact Hv].
    exfalso. apply (H m). left.
Qed.

(** No value of a rescaled vector is negative, whatever the peers sent. *)
Lemma rescale_nonneg (peers : list (option Q)) (v : list Q) (y : Q) :
  y ∈ rescale peers v -> 0 <= y.
Proof.
  unfold rescale, Vector_sub_scalar.
  pose proof (allreduce_lower_bound peers v) as H.
  destruct (MPI_Allreduce_MIN (Vector_Min v) peers) as [g|].
  - intros Hy. apply list_elem_of_fmap in Hy as (x & -> & Hx).
    specialize (H x Hx). lra.
  - subst v. intros Hy. inversion Hy.
Qed.

Lemma Vector_Min_elem (v : list Q) (m : Q) : Vector_Min v = Some m -> m ∈ v.
Proof. intros H. pose proof (Vector_Min_spec v) as S. rewrite H in S. apply S. Qed.

Lemma Vector_Min_below (v : list Q) (x : Q) :
  x ∈ v -> exists m, Vector_Min v = Some m /\ m <= x.
Proof.
  intros Hx. pose proof (Vector_Min_spec v) as S.
  destruct (Vector_Min v) as [m|].
  - exists m. split; [reflexivity | apply S, Hx].
  - subst v. inversion Hx.
Qed.

Lemma elem_of_concat (ds : list (list Q)) (x : Q) :
  x ∈ concat ds <-> exists d, d ∈ ds /\ x ∈ d.
Proof.
  rewrite list_elem_of_In, in_concat. split; intros (d & H1 & H2); exists d.
  - rewrite !list_elem_of_In. auto.
  - rewrite <- !list_elem_of_In. auto.
Qed.

(** What rank [r] feeds the reduction and receives from its peers is, up
    to the order, the list of all local minima. *)
Lemma contributions_Permutation (ds : list (list Q)) (r : nat) (d : list Q) :
  ds !! r = Some d ->
  Vector_Min d :: map Vector_Min (delete r ds) ≡ₚ map Vector_Min ds.
Proof.
  intros Hr. symmetry.
  change (map Vector_Min (delete r ds)) with (Vector_Min <$> delete r ds).
  rewrite list_fmap_delete.
  apply delete_Permutation.
  change (map Vector_Min ds) with (Vector_Min <$> ds).
  rewrite list_lookup_fmap, Hr. reflexivity.
Qed.

(** Every rank receives the minimum of the whole field. *)
Lemma allreduce_global_min (ds : list (list Q)) (m0 : Q) (r : nat) (d : list Q) :
  Vector_Min (concat ds) = Some m0 ->
  ds !! r = Some d ->
  exists g, MPI_Allreduce_MIN (Vector_Min d) (map Vector_Min (delete r ds)) = Some g
            /\ g == m0.
Proof.
  intros Hm0 Hr.
  pose proof (Vector_Min_spec (concat ds)) as S0. rewrite Hm0 in S0.
  destruct S0 as [Hin0 Hlb0].
  apply elem_of_concat in Hin0 as (d0 & Hd0 & Hm0d0).
  destruct (Vector_Min_below d0 m0 Hm0d0) as (m1 & Hm1 & Hle1).
  assert (Hall : forall o, o ∈ Vector_Min d :: map Vector_Min (delete r ds)
                           <-> o ∈ map Vector_Min ds).
  { intros o. rewrite (contributions_Permutation ds r d Hr). reflexivity. }
  unfold MPI_Allreduce_MIN.
  pose proof (fold_dmin_spec (Vector_Min d :: map Vector_Min (delete r ds))) as H.
  destruct (fold_right dmin None _) as [g|].
  - exists g. split; [reflexivity|]. destruct H as [Hg Hlb].
    apply Qle_antisym.
    + apply Qle_trans with m1; [|exact Hle1].
      apply Hlb, Hall. apply list_elem_of_fmap. exists d0. auto.
    + apply Hlb0. apply Hall in Hg.
      apply list_elem_of_fmap in Hg as (d1 & Hg & Hd1).
      apply elem_of_concat. exists d1. split; [exact Hd1|].
      apply Vector_Min_elem. symmetry. exact Hg.
  - exfalso. apply (H m1), Hall. apply list_elem_of_fmap. exists d0. auto.
Qed.

Lemma rescale_all_lookup (ds : list (list Q)) (r : nat) :
  rescale_all ds !! r
  = (fun d => rescale (map Vector_Min (delete r ds)) d) <$> ds !! r.
Proof.
  unfold rescale_all.
  exact (list_lookup_imap (fun r d => rescale (map Vector_Min (delete r ds)) d) ds r).
Qed.

(** ** Normalization of the distance *)

(** C4. When [ComputeDistance] returns, the field it returns is the solved
    distance shifted by the result of one global-minimum reduction, and none
    of its values is negative.  Taken over all ranks, every rank subtracts
    the minimum of the whole field, so the shifted field has no negative
    value and takes the value zero: its global minimum is 0. *)
Theorem C4_distance_normalized
        (lib : Library) (level_set : Coefficient lib) (smooth_steps : Z)
        (transform : bool) (d : DistanceFunction) (ds : list (list Q)) :
  (preconditioner_available lib d = true ->
   let src := prepared_source lib d level_set smooth_steps transform in
   let diffused := average_loop (diffused_source d) (neumann_solution lib d src)
                                (dirichlet_solution lib d (ess_tdof_list d) src) in
   let solved := poisson_solution lib d diffused (distance d) in
   exists v d' tr,
     ComputeDistance lib level_set smooth_steps transform d = Ok v d' tr
     /\ v = distance d'
     /\ v = rescale (peers_d_min lib) solved
     /\ (forall y, y ∈ v -> 0 <= y)
     /\ length (filter is_Ev_Allreduce_MIN tr) = 1%nat)
  /\
  (concat ds <> [] ->
   exists m,
     m ∈ concat ds
     /\ (forall x, x ∈ concat ds -> m <= x)
     /\ (forall r part, ds !! r = Some part ->
           exists g, g == m /\ rescale_all ds !! r = Some (map (fun x => x - g) part))
     /\ (forall y, y ∈ concat (rescale_all ds) -> 0 <= y)
     /\ (exists y, y ∈ concat (rescale_all ds) /\ y == 0)).
Proof.
  split.
  - intros Hav.
    pose proof (ComputeDistance_returns lib level_set smooth_steps transform d Hav) as Hrun.
    cbn zeta in Hrun. cbn zeta.
    eexists _, _, _. split; [exact Hrun|].
    split; [reflexivity|]. split; [reflexivity|].
    split; [intros y; apply rescale_nonneg|].
    unfold preparation_events. destruct (0 <? smooth_steps)%Z; reflexivity.
  - intros Hne.
    pose proof (Vector_Min_spec (concat ds)) as S0.
    destruct (Vector_Min (concat ds)) as [m|] eqn:Hm; [|contradiction].
    destruct S0 as [Hin Hlb].
    assert (Hrank : forall r part, ds !! r = Some part ->
              exists g, g == m /\ rescale_all ds !! r = Some (map (fun x => x - g) part)).
    { intros r part Hr.
      destruct (allreduce_global_min ds m r part Hm Hr) as (g & Hg & Heq).
      exists g. split; [exact Heq|].
      rewrite rescale_all_lookup, Hr. cbn. unfold rescale. rewrite Hg. reflexivity. }
    exists m. repeat split; [exact Hin | exact Hlb | exact Hrank | |].
    + intros y Hy. apply elem_of_concat in Hy as (part' & Hp & Hy).
      apply list_elem_of_lookup in Hp as (r & Hp).
      rewrite rescale_all_lookup in Hp.
      destruct (ds !! r) as [part|]; [|discriminate].
      injection Hp as <-. exact (rescale_nonneg _ _ _ Hy).
    + apply elem_of_concat in Hin as (part & Hp & Hmp).
      apply list_elem_of_lookup in Hp as (r & Hp).
      destruct (Hrank r part Hp) as (g & Heq & Hres).
      exists (m - g). split; [|rewrite Heq; ring].
      apply elem_of_concat. exists (map (fun x => x - g) part). split.
      * apply list_elem_of_lookup. exists r. exact Hres.
      * apply list_elem_of_fmap. exists m. auto.
Qed.

Lemma C4_distance_normalized_witness :
  preconditioner_available (Demo.lib false) (Demo.object false false) = true
  /\ concat [[1; 3]; []; [2 # 4; 1 # 2]] <> []
  /\ (exists v d' tr,
        ComputeDistance (Demo.lib false) Demo.level_set 0 true (Demo.object false false)
        = Ok v d' tr /\ forall y, y ∈ v -> 0 <= y)
  /\ (exists y, y ∈ concat (rescale_all [[1; 3]; []; [2 # 4; 1 # 2]]) /\ y == 0).
Proof.
  destruct (C4_distance_normalized (Demo.lib false) Demo.level_set 0 true
              (Demo.object false false) [[1; 3]; []; [2 # 4; 1 # 2]]) as [H1 H2].
  split; [reflexivity|]. split; [discriminate|]. split.
  - destruct (H1 eq_refl) as (v & d' & tr & Hrun & _ & _ & Hpos & _).
    exists v, d', tr. split; [exact Hrun | exact Hpos].
  - destruct H2 as (m & _ & _ & _ & _ & Hzero); [discriminate | exact Hzero].
Defined.

(** ** The mesh-scale estimate *)

Lemma for_loop_fold_map {A : Type} (f : A -> Q -> A) (g : nat -> Q) (n : nat) (a : A) :
  for_loop n (fun i s => f s (g i)) a = fold_left f (map g (seq 0 n)) a.
Proof.
  unfold for_loop. generalize (seq 0 n) a.
  intros l. induction l as [|i l IH]; intros a0; cbn; [reflexivity | apply IH].
Qed.

Lemma local_area_sum (pmesh : ParMesh) :
  local_area pmesh
  = fold_left Qplus (map (GetElementVolume pmesh) (seq 0 (GetNE pmesh))) 0.
Proof. unfold local_area. apply for_loop_fold_map. Qed.

Lemma to_int_id (z : Z) :
  (-2147483648 <= z < 2147483648)%Z -> to_int z = z.
Proof. intros H. unfold to_int. rewrite Z.mod_small by lia. lia. Qed.






(** ** The source field *)

(** The source the call leaves in the object, whether it returns or
    aborts in the first solve. *)
Lemma ComputeDistance_source (lib : Library) (level_set : Coefficient lib)
      (smooth_steps : Z) (transform : bool) (d : DistanceFunction) :
  source (obj_of (ComputeDistance lib level_set smooth_steps transform d))
  = prepared_source lib d level_set smooth_steps transform.
Proof.
  destruct (preconditioner_available lib d) eqn:Hav.
  - rewrite (ComputeDistance_returns lib level_set smooth_steps transform d Hav). reflexivity.
  - rewrite (ComputeDistance_aborts lib level_set smooth_steps transform d Hav). reflexivity.
Qed.

Lemma ComputeDistance_returns_iff (lib : Library) (level_set : Coefficient lib)
      (smooth_steps : Z) (transform : bool) (d : DistanceFunction) :
  returns (ComputeDistance lib level_set smooth_steps transform d)
  = preconditioner_available lib d.
Proof.
  destruct (preconditioner_available lib d) eqn:Hav.
  - rewrite (ComputeDistance_returns lib level_set smooth_steps transform d Hav). reflexivity.
  - rewrite (ComputeDistance_aborts lib level_set smooth_steps transform d Hav). reflexivity.
Qed.

Lemma transform_source_true (v : list Q) (d : DistanceFunction) :
  transform_source true (with_source v d) = Ok tt (with_source (transform_loop v) d) [].
Proof. reflexivity. Qed.

(** C6. With [transform = true] the call leaves in [source] the smoothed
    projection with every nodal value [x] replaced by 0 when [x < 0] or
    [x > 1] and by [4 x (1 - x)] otherwise.  The transform stage itself
    always returns, and whether the call returns does not depend on the
    values: a value outside [0,1] raises no error. *)
Theorem C6_peak_transform
        (lib : Library) (level_set : Coefficient lib) (smooth_steps : Z)
        (d : DistanceFunction) :
  let before := smoothed_source lib d level_set smooth_steps in
  let o := ComputeDistance lib level_set smooth_steps true d in
  length (source (obj_of o)) = length before
  /\ (forall i x, before !! i = Some x ->
        (x < 0 \/ 1 < x -> source (obj_of o) !! i = Some 0)
        /\ (0 <= x <= 1 -> source (obj_of o) !! i = Some (4 * x * (1 - x))))
  /\ transform_source true (with_source before d)
     = Ok tt (with_source (source (obj_of o)) d) []
  /\ returns o = preconditioner_available lib d.
Proof.
  cbn zeta. rewrite ComputeDistance_source, ComputeDistance_returns_iff.
  unfold prepared_source. rewrite transform_loop_map.
  split; [apply length_map|]. split; [|split; [|reflexivity]].
  - intros i x Hx.
    change (map peak ?l) with (peak <$> l). rewrite list_lookup_fmap, Hx. cbn.
    split; intros H.
    + rewrite peak_outside by exact H. reflexivity.
    + rewrite peak_inside by exact H. reflexivity.
  - rewrite transform_source_true, transform_loop_map. reflexivity.
Qed.

Lemma C6_peak_transform_witness :
  smoothed_source (Demo.lib false) (Demo.object false false) Demo.level_set 0 !! 2%nat
  = Some 3
  /\ 1 < 3
  /\ source (obj_of (ComputeDistance (Demo.lib false) Demo.level_set 0 true
                                     (Demo.object false false))) !! 2%nat
     = Some 0.
Proof.
  split; [reflexivity|]. split; [reflexivity|].
  destruct (C6_peak_transform (Demo.lib false) Demo.level_set 0
                              (Demo.object false false)) as (_ & H & _).
  apply (H 2%nat 3); [reflexivity | right; reflexivity].
Defined.

(** C7. The peak transform maps every value into [0,1]: a value of [0,1]
    goes to [4 x (1 - x)], which lies in [0,1]; a value outside [0,1] goes
    to 0.  Hence the transform of a transformed value, and of a transformed
    field, stays in [0,1]. *)
Theorem C7_peak_range (x : Q) (v : list Q) :
  (0 <= x <= 1 -> peak x = 4 * x * (1 - x) /\ 0 <= 4 * x * (1 - x) <= 1)
  /\ (x < 0 \/ 1 < x -> peak x = 0)
  /\ 0 <= peak x <= 1
  /\ 0 <= peak (peak x) <= 1
  /\ (forall y, y ∈ transform_loop v -> 0 <= y <= 1)
  /\ (forall y, y ∈ transform_loop (transform_loop v) -> 0 <= y <= 1).
Proof.
  split; [|split; [|split; [|split; [|split]]]].
  - intros H. split; [apply peak_inside, H|].
    rewrite <- (peak_inside x H). apply peak_range.
  - apply peak_outside.
  - apply peak_range.
  - apply peak_range.
  - intros y. rewrite transform_loop_map. intros Hy.
    apply list_elem_of_fmap in Hy as (z & -> & _). apply peak_range.
  - intros y. rewrite !transform_loop_map. intros Hy.
    apply list_elem_of_fmap in Hy as (z & -> & _). apply peak_range.
Qed.

Lemma C7_peak_range_witness :
  0 <= 1 # 4 <= 1
  /\ (3 < 0 \/ 1 < 3)
  /\ peak (1 # 4) = 4 * (1 # 4) * (1 - (1 # 4))
  /\ peak 3 = 0
  /\ (12 # 16) ∈ transform_loop [1 # 4; 3]
  /\ 0 <= 12 # 16 <= 1.
Proof.
  assert (H0 : 0 <= 1 # 4 <= 1) by (split; discriminate).
  assert (H1 : 3 < 0 \/ 1 < 3) by (right; reflexivity).
  assert (H2 : (12 # 16) ∈ transform_loop [1 # 4; 3]).
  { apply list_elem_of_In. left. reflexivity. }
  destruct (C7_peak_range (1 # 4) [1 # 4; 3]) as (Hin & _ & _ & _ & Hfield & _).
  destruct (C7_peak_range 3 []) as (_ & Hout & _).
  split; [exact H0|]. split; [exact H1|].
  split; [apply Hin, H0|].
  split; [apply Hout, H1|].
  split; [exact H2 | apply Hfield, H2].
Defined.

(** ** The averaged diffusion *)

Lemma average_loop_spec (diffused u_neumann u_dirichlet : list Q) :
  length (average_loop diffused u_neumann u_dirichlet) = length diffused
  /\ forall i, (i < length diffused)%nat ->
       average_loop diffused u_neumann u_dirichlet !! i
       = Some ((1 # 2) * (Vector_get u_neumann i + Vector_get u_dirichlet i)).
Proof.
  unfold average_loop.
  destruct (pointwise_loop_prefix
              (fun i _ => (1 # 2) * (Vector_get u_neumann i + Vector_get u_dirichlet i))
              diffused (length diffused)) as [Hlen Hget]; [lia|].
  split; [exact Hlen|].
  intros i Hi. rewrite Hget.
  destruct (decide (i < length diffused)%nat); [|lia].
  destruct (lookup_lt_is_Some_2 diffused i Hi) as [x ->]. reflexivity.
Qed.

(** C8. A returning call stores in [diffused_source], at every node, half
    the sum of its two diffusion solutions.  On the first call on an object
    these are the solution constrained on the essential dofs of the
    constructor and the unconstrained one, as the averaging of the
    Dirichlet and Neumann solutions asks.  On the next call the first of
    the two is the solution constrained on no dof at all, line 166 having
    emptied the list: the stored field is then not the average of the
    Dirichlet and Neumann solutions. *)
Theorem C8_average_loses_dirichlet
        (lib : Library) (level_set : Coefficient lib) (smooth_steps : Z)
        (transform : bool) (d : DistanceFunction) :
  preconditioner_available lib d = true ->
  let src := prepared_source lib d level_set smooth_steps transform in
  let u_dirichlet := dirichlet_solution lib d (ess_tdof_list d) src in
  let u_unconstrained := dirichlet_solution lib d [] src in
  let u_neumann := neumann_solution lib d src in
  let o1 := ComputeDistance lib level_set smooth_steps transform d in
  let o2 := ComputeDistance lib level_set smooth_steps transform (obj_of o1) in
  returns o1 = true /\ returns o2 = true
  /\ length (diffused_source (obj_of o1)) = length (diffused_source d)
  /\ length (diffused_source (obj_of o2)) = length (diffused_source d)
  /\ forall i, (i < length (diffused_source d))%nat ->
       diffused_source (obj_of o1) !! i
       = Some ((1 # 2) * (Vector_get u_neumann i + Vector_get u_dirichlet i))
       /\ diffused_source (obj_of o2) !! i
          = Some ((1 # 2) * (Vector_get u_neumann i + Vector_get u_unconstrained i)).
Proof.
  intros Hav. cbn zeta.
  rewrite (ComputeDistance_returns lib level_set smooth_steps transform d Hav).
  cbn [obj_of].
  set (d1 := {| pfes := pfes d; ess_tdof_list := [] |}).
  assert (Hav1 : preconditioner_available lib d1 = true) by exact Hav.
  rewrite (ComputeDistance_returns lib level_set smooth_steps transform d1 Hav1).
  cbn [returns obj_of diffused_source].
  set (src := prepared_source lib d level_set smooth_steps transform).
  destruct (average_loop_spec (diffused_source d) (neumann_solution lib d src)
              (dirichlet_solution lib d (ess_tdof_list d) src)) as [Hlen1 Hget1].
  destruct (average_loop_spec (diffused_source d1) (neumann_solution lib d src)
              (dirichlet_solution lib d [] src)) as [Hlen2 Hget2].
  assert (Hd1 : length (diffused_source d1) = length (diffused_source d))
    by exact Hlen1.
  split; [reflexivity|]. split; [reflexivity|].
  split; [exact Hlen1|]. split; [exact (eq_trans Hlen2 Hd1)|].
  intros i Hi. split; [apply Hget1, Hi|].
  apply Hget2. rewrite Hd1. exact Hi.
Qed.

Lemma C8_average_loses_dirichlet_witness :
  preconditioner_available (Demo.lib false) (Demo.object false false) = true
  /\ (0 < length (diffused_source (Demo.object false false)))%nat
  /\ ess_tdof_list (Demo.object false false) = [0%Z; 2%Z]
  /\ exists u_dirichlet u_neumann y1 y2,
       u_dirichlet
       = dirichlet_solution (Demo.lib false) (Demo.object false false) [0%Z; 2%Z]
           (prepared_source (Demo.lib false) (Demo.object false false)
                            Demo.level_set 0 true)
       /\ u_neumann
          = neumann_solution (Demo.lib false) (Demo.object false false)
              (prepared_source (Demo.lib false) (Demo.object false false)
                               Demo.level_set 0 true)
       /\ Vector_get u_dirichlet 0 == 0
       /\ Vector_get u_neumann 0 == 3 # 4
       /\ diffused_source
            (obj_of (ComputeDistance (Demo.lib false) Demo.level_set 0 true
                                     (Demo.object false false))) !! 0%nat = Some y1
       /\ y1 == 3 # 8
       /\ diffused_source
            (obj_of (ComputeDistance (Demo.lib false) Demo.level_set 0 true
               (obj_of (ComputeDistance (Demo.lib false) Demo.level_set 0 true
                                        (Demo.object false false))))) !! 0%nat
          = Some y2
       /\ y2 == 3 # 4
       /\ ~ y2 == (1 # 2) * (Vector_get u_dirichlet 0 + Vector_get u_neumann 0).
Proof.
  assert (Hi : (0 < length (diffused_source (Demo.object false false)))%nat)
    by (vm_compute; lia).
  split; [reflexivity|]. split; [exact Hi|]. split; [reflexivity|].
  destruct (C8_average_loses_dirichlet (Demo.lib false) Demo.level_set 0 true
              (Demo.object false false) eq_refl) as (_ & _ & _ & _ & H).
  destruct (H 0%nat Hi) as [H1 H2].
  eexists _, _, _, _.
  split; [reflexivity|]. split; [reflexivity|].
  split; [reflexivity|]. split; [reflexivity|].
  split; [exact H1|]. split; [reflexivity|].
  split; [exact H2|]. split; [reflexivity|].
  vm_compute. discriminate.
Defined.

(** ** Smoothing *)

Lemma zero_steps_no_smoother_event (lib : Library) (level_set : Coefficient lib)
      (transform : bool) (d : DistanceFunction) :
  filter is_Ev_Smoother_Mult (trace_of (ComputeDistance lib level_set 0 transform d)) = [].
Proof.
  destruct (preconditioner_available lib d) eqn:Hav.
  - rewrite (ComputeDistance_returns lib level_set 0 transform d Hav). reflexivity.
  - rewrite (ComputeDistance_aborts lib level_set 0 transform d Hav). reflexivity.
Qed.

(** C9. With [smooth_steps = 0] lines 107-110 store the projection of the
    level set in [source] and make no call to the smoother; the call leaves
    in [source] that projection (transformed if asked), and its trace has
    no smoother event. *)
Theorem C9_zero_steps_skip_smoothing
        (lib : Library) (level_set : Coefficient lib) (transform : bool)
        (d : DistanceFunction) :
  let p := ProjectCoefficient lib (pfes d) level_set in
  let o := ComputeDistance lib level_set 0 transform d in
  project_and_smooth lib level_set 0 d = Ok tt (with_source p d) [Ev_ProjectCoefficient]
  /\ smoothed_source lib d level_set 0 = p
  /\ source (obj_of o) = (if transform then transform_loop p else p)
  /\ filter is_Ev_Smoother_Mult (trace_of o) = [].
Proof.
  cbn zeta. split; [reflexivity|]. split; [reflexivity|].
  split; [apply ComputeDistance_source | apply zero_steps_no_smoother_event].
Qed.

(** C10. A negative [smooth_steps] is not rejected: the call is the call
    with [smooth_steps = 0], outcome, object and trace alike; lines 107-110
    store the projection and make no call to the smoother. *)
Theorem C10_negative_steps_as_zero
        (lib : Library) (level_set : Coefficient lib) (smooth_steps : Z)
        (transform : bool) (d : DistanceFunction) :
  (smooth_steps < 0)%Z ->
  ComputeDistance lib level_set smooth_steps transform d
  = ComputeDistance lib level_set 0 transform d
  /\ project_and_smooth lib level_set smooth_steps d
     = Ok tt (with_source (ProjectCoefficient lib (pfes d) level_set) d)
          [Ev_ProjectCoefficient]
  /\ filter is_Ev_Smoother_Mult
            (trace_of (ComputeDistance lib level_set smooth_steps transform d)) = []
  /\ returns (ComputeDistance lib level_set smooth_steps transform d)
     = preconditioner_available lib d.
Proof.
  intros Hneg.
  assert (Hk : (0 <? smooth_steps)%Z = false) by (apply Z.ltb_ge; lia).
  assert (Heq : ComputeDistance lib level_set smooth_steps transform d
                = ComputeDistance lib level_set 0 transform d).
  { unfold ComputeDistance, project_and_smooth. rewrite Hk. reflexivity. }
  split; [exact Heq|]. split.
  - unfold project_and_smooth. rewrite Hk. reflexivity.
  - rewrite Heq. split; [|apply ComputeDistance_returns_iff].
    apply zero_steps_no_smoother_event.
Qed.

Lemma C10_negative_steps_as_zero_witness :
  (-3 < 0)%Z
  /\ ComputeDistance (Demo.lib false) Demo.level_set (-3) true (Demo.object false false)
     = ComputeDistance (Demo.lib false) Demo.level_set 0 true (Demo.object false false).
Proof.
  split; [reflexivity|].
  apply (C10_negative_steps_as_zero (Demo.lib false) Demo.level_set (-3) true
           (Demo.object false false)).
  reflexivity.
Defined.

(** ** The essential dofs across calls *)

(** C1. The first call that returns hands the object's [ess_tdof_list] to
    the Dirichlet solve and the empty list to the Neumann and Poisson
    solves, but it does so by emptying the member (line 166): the list of
    the constructor is gone when the call returns, and any later call hands
    the empty list to its Dirichlet solve as well. *)
Theorem C1_essential_dofs_emptied
        (lib : Library) (level_set level_set' : Coefficient lib)
        (smooth_steps smooth_steps' : Z) (transform transform' : bool)
        (d : DistanceFunction) :
  preconditioner_available lib d = true ->
  let o1 := ComputeDistance lib level_set smooth_steps transform d in
  let o2 := ComputeDistance lib level_set' smooth_steps' transform' (obj_of o1) in
  returns o1 = true
  /\ constraint_sets (trace_of o1)
     = [(form_a1, ess_tdof_list d); (form_a_n, []); (form_a2, [])]
  /\ ess_tdof_list (obj_of o1) = []
  /\ returns o2 = true
  /\ constraint_sets (trace_of o2) = [(form_a1, []); (form_a_n, []); (form_a2, [])].
Proof.
  intros Hav. cbn zeta.
  rewrite (ComputeDistance_returns lib level_set smooth_steps transform d Hav).
  cbn [obj_of trace_of returns].
  set (d1 := {| pfes := pfes d; ess_tdof_list := [] |}).
  assert (Hav1 : preconditioner_available lib d1 = true) by exact Hav.
  rewrite (ComputeDistance_returns lib level_set' smooth_steps' transform' d1 Hav1).
  cbn [obj_of trace_of returns].
  unfold preparation_events.
  repeat split; destruct (0 <? smooth_steps)%Z, (0 <? smooth_steps')%Z; reflexivity.
Qed.

Lemma C1_essential_dofs_emptied_witness :
  preconditioner_available (Demo.lib false) (Demo.object false false) = true
  /\ ess_tdof_list (Demo.object false false) = [0%Z; 2%Z]
  /\ ess_tdof_list
       (obj_of (ComputeDistance (Demo.lib false) Demo.level_set 0 true
                                (Demo.object false false))) = []
  /\ constraint_sets
       (trace_of
          (ComputeDistance (Demo.lib false) Demo.level_set 0 true
             (obj_of (ComputeDistance (Demo.lib false) Demo.level_set 0 true
                                      (Demo.object false false)))))
     = [(form_a1, []); (form_a_n, []); (form_a2, [])].
Proof.
  destruct (C1_essential_dofs_emptied (Demo.lib false) Demo.level_set Demo.level_set
              0 0 true true (Demo.object false false) eq_refl)
    as (_ & _ & H1 & _ & H2).
  split; [reflexivity|]. split; [reflexivity|]. split; [exact H1 | exact H2].
Defined.

(** C2. Two calls in a row with the same arguments do not run the same
    computation: the first averages the Neumann solution with the
    solution constrained on the object's [ess_tdof_list], the second
    averages it with the solution constrained on the empty list, because
    the first call emptied the member.  The distance each call returns is
    the rescaled Poisson solution for its own diffused field. *)
Theorem C2_second_call_unconstrained
        (lib : Library) (level_set : Coefficient lib) (smooth_steps : Z)
        (transform : bool) (d : DistanceFunction) :
  preconditioner_available lib d = true ->
  let src := prepared_source lib d level_set smooth_steps transform in
  let u_n := neumann_solution lib d src in
  let o1 := ComputeDistance lib level_set smooth_steps transform d in
  let o2 := ComputeDistance lib level_set smooth_steps transform (obj_of o1) in
  let diffused1 := average_loop (diffused_source d) u_n
                                (dirichlet_solution lib d (ess_tdof_list d) src) in
  let diffused2 := average_loop diffused1 u_n (dirichlet_solution lib d [] src) in
  exists v1 d1 tr1 v2 d2 tr2,
    o1 = Ok v1 d1 tr1 /\ o2 = Ok v2 d2 tr2
    /\ diffused_source d1 = diffused1
    /\ diffused_source d2 = diffused2
    /\ v1 = rescale (peers_d_min lib) (poisson_solution lib d diffused1 (distance d))
    /\ v2 = rescale (peers_d_min lib) (poisson_solution lib d diffused2 v1)
    /\ In (form_a1, ess_tdof_list d) (constraint_sets tr1)
    /\ In (form_a1, []) (constraint_sets tr2).
Proof.
  intros Hav. cbn zeta.
  rewrite (ComputeDistance_returns lib level_set smooth_steps transform d Hav).
  cbn [obj_of].
  set (d1 := {| pfes := pfes d; ess_tdof_list := [] |}).
  assert (Hav1 : preconditioner_available lib d1 = true) by exact Hav.
  rewrite (ComputeDistance_returns lib level_set smooth_steps transform d1 Hav1).
  eexists _, _, _, _, _, _.
  split; [reflexivity|]. split; [reflexivity|].
  split; [reflexivity|]. split; [reflexivity|].
  split; [reflexivity|]. split; [reflexivity|].
  unfold preparation_events.
  split; destruct (0 <? smooth_steps)%Z; cbn; auto.
Qed.

Lemma C2_second_call_unconstrained_witness :
  preconditioner_available (Demo.lib false) (Demo.object false false) = true
  /\ exists v1 d1 tr1 v2 d2 tr2,
       ComputeDistance (Demo.lib false) Demo.level_set 0 true (Demo.object false false)
       = Ok v1 d1 tr1
       /\ ComputeDistance (Demo.lib false) Demo.level_set 0 true d1 = Ok v2 d2 tr2
       /\ In (form_a1, [0%Z; 2%Z]) (constraint_sets tr1)
       /\ In (form_a1, []) (constraint_sets tr2)
       /\ ~ Forall2 Qeq v1 v2.
Proof.
  split; [reflexivity|].
  destruct (C2_second_call_unconstrained (Demo.lib false) Demo.level_set 0 true
              (Demo.object false false) eq_refl)
    as (v1 & d1 & tr1 & v2 & d2 & tr2 & H1 & H2 & _ & _ & Hv1 & Hv2 & Hc1 & Hc2).
  exists v1, d1, tr1, v2, d2, tr2.
  assert (Hd1 : d1 = obj_of (ComputeDistance (Demo.lib false) Demo.level_set 0 true
                                             (Demo.object false false)))
    by (rewrite H1; reflexivity).
  split; [exact H1|]. split; [rewrite Hd1; exact H2|].
  split; [exact Hc1|]. split; [exact Hc2|].
  rewrite Hv2, Hv1. vm_compute. intros HF.
  inversion HF as [|? ? ? ? Hhd _]. discriminate Hhd.
Defined.

(** ** Configuration errors *)

(** C3, counterexample.  The constructor does not look at the
    preconditioner request: in a
    build without AMGX it builds the object that asks for AMGX, and the
    abort comes from [ComputeDistance].  So "every configuration error
    aborts the constructor" fails. *)
Lemma C3_amgx_request_survives_construction :
  (MFEM_USE_AMGX (Demo.lib false) = false
   /\ exists d,
        DistanceFunction_ctor (Demo.lib false) Demo.pmesh 1 1 true = inl d
        /\ use_amgx d = true
        /\ returns (ComputeDistance (Demo.lib false) Demo.level_set 0 false d) = false)
  /\ ~ (forall (lib : Library) (pmesh : ParMesh) (order : Z) (diff_coeff : Q),
          MFEM_USE_AMGX lib = false ->
          exists msg, DistanceFunction_ctor lib pmesh order diff_coeff true = inr msg).
Proof.
  split.
  - split; [reflexivity|]. eexists. split; [reflexivity|]. split; reflexivity.
  - intros H. destruct (H (Demo.lib false) Demo.pmesh 1%Z 1 eq_refl) as [msg Hmsg].
    discriminate Hmsg.
Qed.

(** C3 (amended). A zone shape outside the five of the [switch] aborts the
    constructor with a message, whatever the other arguments; with one of
    the five the constructor returns and records the preconditioner request
    unchecked.  A request the build cannot serve aborts [ComputeDistance]
    with a message from [GetPrecondtioner], after the source is prepared and
    the first linear system formed, and before any conjugate-gradient solve;
    with any other object the call returns. *)
Theorem C3_configuration_errors
        (lib : Library) (pmesh : ParMesh) (order : Z) (diff_coeff : Q)
        (use_amgx_ : bool) (level_set : Coefficient lib) (smooth_steps : Z)
        (transform : bool) (d : DistanceFunction) :
  let built := DistanceFunction_ctor lib pmesh order diff_coeff use_amgx_ in
  match GetElementBaseGeometry pmesh 0 with
  | SEGMENT | SQUARE | TRIANGLE | CUBE | TETRAHEDRON =>
      exists d0, built = inl d0 /\ use_amgx d0 = use_amgx_
  | INVALID | POINT | PRISM => built = inr "Unknown zone type!"%string
  end
  /\ preconditioner_available lib d = (MFEM_USE_AMGX lib || negb (use_amgx d))
  /\ let o := ComputeDistance lib level_set smooth_steps transform d in
     if preconditioner_available lib d
     then returns o = true
     else exists d',
         o = Abort ("AMGX not enabled " ++ newline) d'
                   (preparation_events smooth_steps
                    ++ [Ev_FormLinearSystem form_a1 (ess_tdof_list d)])
         /\ filter is_Ev_CG_Mult (trace_of o) = [].
Proof.
  cbn zeta. split; [|split; [reflexivity|]].
  - unfold DistanceFunction_ctor, mesh_size.
    destruct (GetElementBaseGeometry pmesh 0); cbn;
      try reflexivity; eexists; (split; reflexivity).
  - destruct (preconditioner_available lib d) eqn:Hav.
    + rewrite (ComputeDistance_returns lib level_set smooth_steps transform d Hav).
      reflexivity.
    + rewrite (ComputeDistance_aborts lib level_set smooth_steps transform d Hav).
      eexists. split; [reflexivity|].
      unfold preparation_events. destruct (0 <? smooth_steps)%Z; reflexivity.
Qed.


(** * Further properties of the translated file *)

(** ** The shape of the peak transform *)

Lemma peak_inside_eq (x : Q) : 0 <= x <= 1 -> peak x == 1 - (2 * x - 1) * (2 * x - 1).
Proof. intros H. rewrite (peak_inside x H). ring. Qed.

Lemma Qsquare_zero (y : Q) : y * y == 0 -> y == 0.
Proof. intros H. destruct (Qmult_integral _ _ H); assumption. Qed.

(** X1. The transform is symmetric about 1/2, vanishes exactly on the
    values at or outside the ends of [0,1], is positive strictly inside,
    and reaches 1 exactly at 1/2: the peak sits at the level-set value
    1/2. *)
Theorem peak_shape (x : Q) :
  peak (1 - x) == peak x
  /\ (peak x == 0 <-> x <= 0 \/ 1 <= x)
  /\ (0 < x < 1 -> 0 < peak x)
  /\ (peak x == 1 <-> x == 1 # 2).
Proof.
  assert (Hpos : 0 < x < 1 -> 0 < peak x).
  { intros H. rewrite peak_inside by lra.
    assert (0 < x * (1 - x)) by (apply Qmult_lt_0_compat; lra).
    lra. }
  split; [|split; [|split; [exact Hpos|]]].
  - destruct (Qlt_le_dec x 0) as [H0|H0].
    { rewrite (peak_outside x) by auto. rewrite (peak_outside (1 - x)) by (right; lra).
      reflexivity. }
    destruct (Qlt_le_dec 1 x) as [H1|H1].
    { rewrite (peak_outside x) by auto. rewrite (peak_outside (1 - x)) by (left; lra).
      reflexivity. }
    rewrite (peak_inside x) by auto. rewrite (peak_inside (1 - x)) by lra. ring.
  - split.
    + intros Hz.
      destruct (Qlt_le_dec 0 x) as [H0|H0]; [|auto].
      destruct (Qlt_le_dec x 1) as [H1|H1]; [|auto].
      specialize (Hpos (conj H0 H1)). lra.
    + intros [H|H].
      * destruct (Qlt_le_dec x 0) as [H0|H0]; [rewrite peak_outside by auto; reflexivity|].
        rewrite peak_inside by lra.
        assert (E : x == 0) by lra. rewrite E. reflexivity.
      * destruct (Qlt_le_dec 1 x) as [H1|H1]; [rewrite peak_outside by auto; reflexivity|].
        rewrite peak_inside by lra.
        assert (E : x == 1) by lra. rewrite E. reflexivity.
  - split.
    + intros H1.
      destruct (Qlt_le_dec x 0) as [Hl|Hl]; [rewrite peak_outside in H1 by auto; discriminate|].
      destruct (Qlt_le_dec 1 x) as [Hr|Hr]; [rewrite peak_outside in H1 by auto; discriminate|].
      rewrite peak_inside_eq in H1 by auto.
      assert (Hsq : (2 * x - 1) * (2 * x - 1) == 0) by lra.
      apply Qsquare_zero in Hsq. lra.
    + intros E. rewrite peak_inside_eq by lra.
      assert (E2 : 2 * x - 1 == 0) by lra. rewrite E2. reflexivity.
Qed.

Lemma peak_shape_witness :
  0 < 1 # 4 < 1 /\ 0 < peak (1 # 4) /\ (2 # 4) == 1 # 2 /\ peak (2 # 4) == 1.
Proof.
  assert (H : 0 < 1 # 4 < 1) by (split; reflexivity).
  assert (E : (2 # 4) == 1 # 2) by reflexivity.
  destruct (peak_shape (1 # 4)) as (_ & _ & Hpos & _).
  destruct (peak_shape (2 # 4)) as (_ & _ & _ & Hmax).
  split; [exact H|]. split; [exact (Hpos H)|]. split; [exact E | apply Hmax, E].
Defined.

(** ** The mesh scale of a uniform mesh *)

Lemma fold_left_Qplus_uniform (A : Q) (l : list Q) (a : Q) :
  (forall x, In x l -> x == A) ->
  fold_left Qplus l a == a + inject_Z (Z.of_nat (length l)) * A.
Proof.
  revert a. induction l as [|x l IH]; intros a Hl.
  - cbn. ring.
  - cbn [fold_left length]. rewrite IH by (intros y Hy; apply Hl; right; exact Hy).
    rewrite (Hl x) by (left; reflexivity).
    rewrite Nat2Z.inj_succ. unfold Z.succ. rewrite inject_Z_plus. ring.
Qed.

(** [GetNE()] is an [int]: storing it in an [int] keeps it. *)
Lemma local_zone_count_fits (pmesh : ParMesh) :
  to_int (Z.of_nat (GetNE pmesh)) = Z.of_nat (GetNE pmesh).
Proof.
  apply to_int_id. pose proof (GetNE_int pmesh) as H.
  apply Z.leb_le in H. lia.
Qed.

Lemma uniform_zone_measure (lib : Library) (pmesh : ParMesh) (A : Q) :
  peers_loc_area lib = [] ->
  (0 < GetNE pmesh)%nat ->
  GetGlobalNE pmesh = Z.of_nat (GetNE pmesh) ->
  (forall i, (i < GetNE pmesh)%nat -> GetElementVolume pmesh i == A) ->
  MPI_Allreduce_SUM (local_area pmesh) (peers_loc_area lib)
  / inject_Z (to_int (GetGlobalNE pmesh)) == A.
Proof.
  intros Hpeers Hne Hglob Hvol.
  rewrite Hpeers, Hglob, (local_zone_count_fits pmesh), local_area_sum.
  cbn [MPI_Allreduce_SUM fold_left].
  rewrite (fold_left_Qplus_uniform A).
  - rewrite length_map, length_seq. field.
    intros H. unfold Qeq in H. cbn in H. lia.
  - intros x Hx. apply in_map_iff in Hx as (i & <- & Hi).
    apply in_seq in Hi. apply Hvol. lia.
Qed.

(** X2. On one rank, for a mesh of [N >= 1] zones that all have measure
    [A], the constructor divides the total measure by [N] back to [A]:
    [dx] is [q / order] for segments, [sqrt q / order] for quadrilaterals
    and [pow q (1/3) / order] for hexahedra with [q == A], [sqrt q / order]
    with [q == 2 A] for triangles and [pow q (1/3) / order] with
    [q == 6 A] for tetrahedra. *)
Theorem uniform_mesh_scale
        (lib : Library) (pmesh : ParMesh) (order : Z) (diff_coeff : Q)
        (use_amgx_ : bool) (A : Q) :
  peers_loc_area lib = [] ->
  (0 < GetNE pmesh)%nat ->
  GetGlobalNE pmesh = Z.of_nat (GetNE pmesh) ->
  (forall i, (i < GetNE pmesh)%nat -> GetElementVolume pmesh i == A) ->
  let built := DistanceFunction_ctor lib pmesh order diff_coeff use_amgx_ in
  let p := inject_Z order in
  match GetElementBaseGeometry pmesh 0 with
  | SEGMENT => exists d q, built = inl d /\ dx d = q / p /\ q == A
  | SQUARE => exists d q, built = inl d /\ dx d = sqrt lib q / p /\ q == A
  | TRIANGLE => exists d q, built = inl d /\ dx d = sqrt lib q / p /\ q == 2 * A
  | CUBE => exists d q, built = inl d /\ dx d = pow lib q (1 # 3) / p /\ q == A
  | TETRAHEDRON => exists d q, built = inl d /\ dx d = pow lib q (1 # 3) / p /\ q == 6 * A
  | INVALID | POINT | PRISM => built = inr "Unknown zone type!"%string
  end.
Proof.
  intros Hpeers Hne Hglob Hvol. cbn zeta.
  pose proof (uniform_zone_measure lib pmesh A Hpeers Hne Hglob Hvol) as HA.
  assert (HN : ~ inject_Z (to_int (GetGlobalNE pmesh)) == 0).
  { rewrite Hglob, (local_zone_count_fits pmesh).
    intros H. unfold Qeq in H. cbn in H. lia. }
  unfold DistanceFunction_ctor, mesh_size.
  destruct (GetElementBaseGeometry pmesh 0); cbn [zone_size]; try reflexivity;
    eexists _, _; (split; [reflexivity|]); (split; [reflexivity|]);
    try exact HA.
  - rewrite <- HA. field. exact HN.
  - rewrite <- HA. field. exact HN.
Qed.

Lemma uniform_mesh_scale_witness :
  peers_loc_area (Demo.lib false) = []
  /\ (0 < GetNE Demo.pmesh)%nat
  /\ GetGlobalNE Demo.pmesh = Z.of_nat (GetNE Demo.pmesh)
  /\ (forall i, (i < GetNE Demo.pmesh)%nat -> GetElementVolume Demo.pmesh i == 1 # 2)
  /\ exists d q, DistanceFunction_ctor (Demo.lib false) Demo.pmesh 1 1 false = inl d
                 /\ dx d = q / 1 /\ q == 1 # 2.
Proof.
  assert (Hvol : forall i, (i < GetNE Demo.pmesh)%nat
                           -> GetElementVolume Demo.pmesh i == 1 # 2)
    by (intros i _; reflexivity).
  split; [reflexivity|]. split; [cbn; lia|]. split; [reflexivity|].
  split; [exact Hvol|].
  apply (uniform_mesh_scale (Demo.lib false) Demo.pmesh 1 1 false (1 # 2)
           eq_refl ltac:(cbn; lia) eq_refl Hvol).
Defined.

(** ** What a call keeps *)

(** One call, returning or not, keeps the space, the two coefficients, the
    preconditioner request and the size of [diffused_source]. *)
Lemma ComputeDistance_frame (lib : Library) (level_set : Coefficient lib)
      (smooth_steps : Z) (transform : bool) (d : DistanceFunction) :
  let d' := obj_of (ComputeDistance lib level_set smooth_steps transform d) in
  pfes d' = pfes d /\ t_param d' = t_param d /\ use_amgx d' = use_amgx d
  /\ dx d' = dx d
  /\ length (diffused_source d') = length (diffused_source d).
Proof.
  cbn zeta. destruct (preconditioner_available lib d) eqn:Hav.
  - rewrite (ComputeDistance_returns lib level_set smooth_steps transform d Hav).
    cbn [obj_of pfes t_param use_amgx dx diffused_source].
    repeat split. apply average_loop_spec.
  - rewrite (ComputeDistance_aborts lib level_set smooth_steps transform d Hav).
    repeat split.
Qed.

Lemma ComputeDistance_empties (lib : Library) (level_set : Coefficient lib)
      (smooth_steps : Z) (transform : bool) (d : DistanceFunction) :
  preconditioner_available lib d = true ->
  ess_tdof_list (obj_of (ComputeDistance lib level_set smooth_steps transform d)) = [].
Proof.
  intros Hav.
  rewrite (ComputeDistance_returns lib level_set smooth_steps transform d Hav).
  reflexivity.
Qed.

(** X3. Whatever calls a caller makes on an object, and however many, the
    object keeps its space, diffusion coefficient, mesh scale and
    preconditioner request and the size of its diffused field; so a build
    that served the first call serves every later one.  In such a build
    the essential dofs are empty after any non-empty sequence of calls. *)
Theorem call_sequence_invariants
        (lib : Library) (calls : list (Coefficient lib * Z * bool))
        (d : DistanceFunction) :
  let d' := call_sequence lib calls d in
  pfes d' = pfes d /\ t_param d' = t_param d /\ use_amgx d' = use_amgx d
  /\ dx d' = dx d
  /\ length (diffused_source d') = length (diffused_source d)
  /\ preconditioner_available lib d' = preconditioner_available lib d
  /\ (preconditioner_available lib d = true -> calls <> [] -> ess_tdof_list d' = []).
Proof.
  cbn zeta. unfold call_sequence.
  induction calls as [|c calls IH] using rev_ind.
  - cbn. repeat split. intros _ H. contradiction.
  - rewrite fold_left_app. cbn [fold_left].
    set (dn := fold_left _ calls d) in *.
    destruct IH as (Hp & Ht & Hu & Hx & Hl & Hav & _).
    destruct (ComputeDistance_frame lib (fst (fst c)) (snd (fst c)) (snd c) dn)
      as (Hp' & Ht' & Hu' & Hx' & Hl').
    split; [congruence|]. split; [congruence|]. split; [congruence|].
    split; [congruence|]. split; [congruence|].
    split; [unfold preconditioner_available in *; congruence|].
    intros Hd _. apply ComputeDistance_empties. congruence.
Qed.

Lemma call_sequence_invariants_witness :
  preconditioner_available (Demo.lib false) (Demo.object false false) = true
  /\ [(Demo.level_set, 2%Z, true); (Demo.level_set, 0%Z, false)] <> []
  /\ ess_tdof_list (Demo.object false false) = [0%Z; 2%Z]
  /\ ess_tdof_list
       (call_sequence (Demo.lib false)
          [(Demo.level_set, 2%Z, true); (Demo.level_set, 0%Z, false)]
          (Demo.object false false)) = [].
Proof.
  split; [reflexivity|]. split; [discriminate|]. split; [reflexivity|].
  apply (call_sequence_invariants (Demo.lib false)
           [(Demo.level_set, 2%Z, true); (Demo.level_set, 0%Z, false)]
           (Demo.object false false)); [reflexivity | discriminate].
Defined.

(** ** The calls a run makes *)

(** X4. A call that returns runs exactly three conjugate-gradient solves,
    for the forms [a1], [a_n], [a2] in this order.  Each is set up by a
    [FormLinearSystem] for the same form, then a preconditioner built for
    this solve alone, of the kind the object asks for; no preconditioner
    serves two solves.  The projection opens the trace and the minimum
    reduction, made once, closes it. *)
Theorem returning_call_trace
        (lib : Library) (level_set : Coefficient lib) (smooth_steps : Z)
        (transform : bool) (d : DistanceFunction) :
  preconditioner_available lib d = true ->
  let tr := trace_of (ComputeDistance lib level_set smooth_steps transform d) in
  let prec := if use_amgx d then AmgXSolver false else HypreBoomerAMG in
  filter is_Ev_CG_Mult tr
  = [Ev_CG_Mult form_a1; Ev_CG_Mult form_a_n; Ev_CG_Mult form_a2]
  /\ preconditioners tr = [prec; prec; prec]
  /\ (forall i a, tr !! i = Some (Ev_CG_Mult a) ->
        exists j ess, i = S (S j)
                      /\ tr !! j = Some (Ev_FormLinearSystem a ess)
                      /\ tr !! S j = Some (Ev_GetPrecondtioner prec))
  /\ head tr = Some Ev_ProjectCoefficient
  /\ last tr = Some Ev_Allreduce_MIN
  /\ filter is_Ev_Allreduce_MIN tr = [Ev_Allreduce_MIN].
Proof.
  intros Hav. cbn zeta.
  rewrite (ComputeDistance_returns lib level_set smooth_steps transform d Hav).
  cbn [trace_of]. unfold preparation_events, built_preconditioner.
  destruct (0 <? smooth_steps)%Z; cbn [app].
  - repeat split.
    intros i a Hi.
    do 12 (destruct i as [|i];
             [cbn in Hi;
              first [discriminate Hi
                    | injection Hi as <-; eexists _, _; split; [reflexivity|];
                      split; reflexivity]|]).
    cbn in Hi. discriminate Hi.
  - repeat split.
    intros i a Hi.
    do 11 (destruct i as [|i];
             [cbn in Hi;
              first [discriminate Hi
                    | injection Hi as <-; eexists _, _; split; [reflexivity|];
                      split; reflexivity]|]).
    cbn in Hi. discriminate Hi.
Qed.

Lemma returning_call_trace_witness :
  preconditioner_available (Demo.lib true) (Demo.object true true) = true
  /\ preconditioners
       (trace_of (ComputeDistance (Demo.lib true) Demo.level_set 0 true
                                  (Demo.object true true)))
     = [AmgXSolver false; AmgXSolver false; AmgXSolver false].
Proof.
  split; [reflexivity|].
  apply (returning_call_trace (Demo.lib true) Demo.level_set 0 true
           (Demo.object true true) eq_refl).
Defined.

(** X5. A call that aborts has overwritten [source] only: the distance,
    the diffused field and the essential dofs are the ones it found, no
    solve and no reduction has been made. *)
Theorem aborting_call_leaves_fields
        (lib : Library) (level_set : Coefficient lib) (smooth_steps : Z)
        (transform : bool) (d : DistanceFunction) :
  preconditioner_available lib d = false ->
  let o := ComputeDistance lib level_set smooth_steps transform d in
  returns o = false
  /\ distance (obj_of o) = distance d
  /\ diffused_source (obj_of o) = diffused_source d
  /\ ess_tdof_list (obj_of o) = ess_tdof_list d
  /\ source (obj_of o) = prepared_source lib d level_set smooth_steps transform
  /\ filter is_Ev_CG_Mult (trace_of o) = []
  /\ filter is_Ev_Allreduce_MIN (trace_of o) = []
  /\ preconditioners (trace_of o) = [].
Proof.
  intros Hav. cbn zeta.
  rewrite (ComputeDistance_aborts lib level_set smooth_steps transform d Hav).
  cbn [returns obj_of trace_of]. unfold preparation_events.
  repeat split; destruct (0 <? smooth_steps)%Z; reflexivity.
Qed.

Lemma aborting_call_leaves_fields_witness :
  preconditioner_available (Demo.lib false) (Demo.object false true) = false
  /\ ess_tdof_list
       (obj_of (ComputeDistance (Demo.lib false) Demo.level_set 2 true
                                (Demo.object false true))) = [0%Z; 2%Z]
  /\ distance
       (obj_of (ComputeDistance (Demo.lib false) Demo.level_set 2 true
                                (Demo.object false true))) = [0; 0; 0].
Proof.
  destruct (aborting_call_leaves_fields (Demo.lib false) Demo.level_set 2 true
              (Demo.object false true) eq_refl) as (_ & Hd & _ & He & _).
  split; [reflexivity|]. split; [rewrite He; reflexivity | rewrite Hd; reflexivity].
Defined.

(** ** What a call does not remember *)

(** The averaging loop writes every entry: of the old [diffused_source]
    only the size matters. *)
Lemma average_loop_length_only (a b u_neumann u_dirichlet : list Q) :
  length a = length b ->
  average_loop a u_neumann u_dirichlet = average_loop b u_neumann u_dirichlet.
Proof.
  intros Hlen.
  destruct (average_loop_spec a u_neumann u_dirichlet) as [Ha Hga].
  destruct (average_loop_spec b u_neumann u_dirichlet) as [Hb Hgb].
  apply list_eq. intros i.
  destruct (decide (i < length a)%nat) as [Hi|Hi].
  - rewrite Hga by exact Hi. rewrite Hgb by lia. reflexivity.
  - rewrite !lookup_ge_None_2 by lia. reflexivity.
Qed.

(** X6. What a call leaves does not depend on what earlier calls left in
    [source], [distance] or in the entries of [diffused_source]: two objects
    with the same space, coefficients, preconditioner request, essential
    dofs and size of [diffused_source] both return or both abort, with the
    same source, essential dofs and trace, and with the same diffused field
    when they return. *)
Theorem call_forgets_fields
        (lib : Library) (level_set : Coefficient lib) (smooth_steps : Z)
        (transform : bool) (d d' : DistanceFunction) :
  pfes d = pfes d' ->
  t_param d = t_param d' ->
  dx d = dx d' ->
  use_amgx d = use_amgx d' ->
  ess_tdof_list d = ess_tdof_list d' ->
  length (diffused_source d) = length (diffused_source d') ->
  let o := ComputeDistance lib level_set smooth_steps transform d in
  let o' := ComputeDistance lib level_set smooth_steps transform d' in
  returns o = returns o'
  /\ source (obj_of o) = source (obj_of o')
  /\ ess_tdof_list (obj_of o) = ess_tdof_list (obj_of o')
  /\ trace_of o = trace_of o'
  /\ (returns o = true -> diffused_source (obj_of o) = diffused_source (obj_of o')).
Proof.
  intros Hp Ht Hx Hu He Hl. cbn zeta.
  assert (Hav : preconditioner_available lib d' = preconditioner_available lib d)
    by (unfold preconditioner_available; rewrite Hu; reflexivity).
  destruct (preconditioner_available lib d) eqn:Hd.
  - rewrite (ComputeDistance_returns lib level_set smooth_steps transform d Hd).
    rewrite (ComputeDistance_returns lib level_set smooth_steps transform d' Hav).
    cbn [returns obj_of trace_of source diffused_source ess_tdof_list].
    unfold prepared_source, smoothed_source, dirichlet_solution, neumann_solution,
      diffusion_form, diffusion_rhs.
    rewrite <- Hp, <- Ht, <- Hx, <- Hu, <- He.
    repeat split. intros _. apply average_loop_length_only, Hl.
  - rewrite (ComputeDistance_aborts lib level_set smooth_steps transform d Hd).
    rewrite (ComputeDistance_aborts lib level_set smooth_steps transform d' Hav).
    cbn [returns obj_of trace_of]. unfold with_source, prepared_source, smoothed_source.
    cbn [source diffused_source ess_tdof_list].
    rewrite <- Hp, <- He. repeat split. discriminate.
Qed.

Lemma call_forgets_fields_witness :
  length (diffused_source (Demo.object false false))
  = length (diffused_source Demo2.used_object)
  /\ diffused_source (Demo.object false false) <> diffused_source Demo2.used_object
  /\ diffused_source
       (obj_of (ComputeDistance (Demo.lib false) Demo.level_set 0 true
                                (Demo.object false false)))
     = diffused_source
         (obj_of (ComputeDistance (Demo.lib false) Demo.level_set 0 true
                                  Demo2.used_object)).
Proof.
  split; [reflexivity|]. split; [discriminate|].
  apply (call_forgets_fields (Demo.lib false) Demo.level_set 0 true
           (Demo.object false false) Demo2.used_object
           eq_refl eq_refl eq_refl eq_refl eq_refl eq_refl).
  reflexivity.
Defined.

(** ** Repeated calls *)

(** X7. From the second call on, calls with the same arguments repeat
    each other: after one returning call, two further calls with the same
    arguments leave the same source, the same diffused field, empty
    essential dofs and the same trace, and return the rescaled solutions
    of one and the same Poisson problem, the later one started from the
    distance the earlier one returned. *)
Theorem later_calls_repeat
        (lib : Library) (level_set0 level_set : Coefficient lib)
        (smooth_steps0 smooth_steps : Z) (transform0 transform : bool)
        (d : DistanceFunction) :
  preconditioner_available lib d = true ->
  let o1 := ComputeDistance lib level_set0 smooth_steps0 transform0 d in
  let o2 := ComputeDistance lib level_set smooth_steps transform (obj_of o1) in
  let o3 := ComputeDistance lib level_set smooth_steps transform (obj_of o2) in
  source (obj_of o3) = source (obj_of o2)
  /\ diffused_source (obj_of o3) = diffused_source (obj_of o2)
  /\ ess_tdof_list (obj_of o3) = [] /\ ess_tdof_list (obj_of o2) = []
  /\ trace_of o3 = trace_of o2
  /\ exists v1 v2 v3 d1 d2 d3 tr1 tr2 tr3,
       o1 = Ok v1 d1 tr1 /\ o2 = Ok v2 d2 tr2 /\ o3 = Ok v3 d3 tr3
       /\ v2 = rescale (peers_d_min lib)
                       (poisson_solution lib d (diffused_source d2) v1)
       /\ v3 = rescale (peers_d_min lib)
                       (poisson_solution lib d (diffused_source d2) v2).
Proof.
  intros Hav. cbn zeta.
  rewrite (ComputeDistance_returns lib level_set0 smooth_steps0 transform0 d Hav).
  cbn [obj_of].
  set (d1 := {| pfes := pfes d; ess_tdof_list := [] |}).
  assert (Hav1 : preconditioner_available lib d1 = true) by exact Hav.
  rewrite (ComputeDistance_returns lib level_set smooth_steps transform d1 Hav1).
  cbn [obj_of].
  set (d2 := {| pfes := pfes d1; ess_tdof_list := [] |}).
  assert (Hav2 : preconditioner_available lib d2 = true) by exact Hav.
  rewrite (ComputeDistance_returns lib level_set smooth_steps transform d2 Hav2).
  cbn [obj_of trace_of source diffused_source ess_tdof_list].
  assert (Hdiff :
    average_loop (diffused_source d2)
      (neumann_solution lib d2 (prepared_source lib d2 level_set smooth_steps transform))
      (dirichlet_solution lib d2 (ess_tdof_list d2)
         (prepared_source lib d2 level_set smooth_steps transform))
    = diffused_source d2).
  { apply average_loop_length_only.
    unfold d2. cbn [diffused_source]. apply average_loop_spec. }
  split; [reflexivity|]. split; [exact Hdiff|].
  split; [reflexivity|]. split; [reflexivity|]. split; [reflexivity|].
  eexists _, _, _, _, _, _, _, _, _.
  split; [reflexivity|]. split; [reflexivity|]. split; [reflexivity|].
  split; [reflexivity|].
  cbn [diffused_source]. rewrite Hdiff. reflexivity.
Qed.

Lemma later_calls_repeat_witness :
  preconditioner_available (Demo.lib false) (Demo.object false false) = true
  /\ diffused_source
       (call_sequence (Demo.lib false)
          [(Demo.level_set, 0%Z, true); (Demo.level_set, 0%Z, true);
           (Demo.level_set, 0%Z, true)] (Demo.object false false))
     = diffused_source
         (call_sequence (Demo.lib false)
            [(Demo.level_set, 0%Z, true); (Demo.level_set, 0%Z, true)]
            (Demo.object false false)).
Proof.
  split; [reflexivity|].
  apply (later_calls_repeat (Demo.lib false) Demo.level_set Demo.level_set
           0 0 true true (Demo.object false false) eq_refl).
Defined.

(** X8. On a mesh with no boundary attribute the constructor leaves the
    essential dofs empty without asking the space for them.  For an object
    with empty essential dofs a returning call leaves them as it found
    them, its Dirichlet solve has no constrained dof, and the next call
    with the same arguments leaves the same source, diffused field and
    trace. *)
Theorem unconstrained_object_repeats
        (lib : Library) (pmesh : ParMesh) (order : Z) (diff_coeff : Q)
        (use_amgx_ : bool) (level_set : Coefficient lib) (smooth_steps : Z)
        (transform : bool) (d : DistanceFunction) :
  (bdr_attributes pmesh = [] ->
   DistanceFunction_ctor lib pmesh order diff_coeff use_amgx_ = inl d ->
   ess_tdof_list d = [])
  /\ (ess_tdof_list d = [] ->
      preconditioner_available lib d = true ->
      let o1 := ComputeDistance lib level_set smooth_steps transform d in
      let o2 := ComputeDistance lib level_set smooth_steps transform (obj_of o1) in
      ess_tdof_list (obj_of o1) = ess_tdof_list d
      /\ In (form_a1, []) (constraint_sets (trace_of o1))
      /\ source (obj_of o2) = source (obj_of o1)
      /\ diffused_source (obj_of o2) = diffused_source (obj_of o1)
      /\ trace_of o2 = trace_of o1).
Proof.
  split.
  - intros Hb Hc. unfold DistanceFunction_ctor in Hc.
    destruct (mesh_size lib pmesh order); [|discriminate].
    injection Hc as <-. cbn [ess_tdof_list]. unfold essential_dofs.
    cbn [GetMesh]. rewrite Hb. reflexivity.
  - intros He Hav. cbn zeta.
    destruct d as [fes dist0 src0 diff0 t amgx h ess]. cbn in He. subst ess.
    set (d := {| pfes := fes; ess_tdof_list := [] |}) in *.
    rewrite (ComputeDistance_returns lib level_set smooth_steps transform d Hav).
    cbn [obj_of].
    set (d1 := {| pfes := pfes d; ess_tdof_list := [] |}).
    assert (Hav1 : preconditioner_available lib d1 = true) by exact Hav.
    rewrite (ComputeDistance_returns lib level_set smooth_steps transform d1 Hav1).
    cbn [obj_of trace_of source diffused_source ess_tdof_list].
    split; [reflexivity|]. split.
    { unfold preparation_events. destruct (0 <? smooth_steps)%Z; cbn; auto. }
    split; [reflexivity|]. split; [|reflexivity].
    unfold d1 at 1. cbn [diffused_source].
    transitivity (average_loop (diffused_source d)
                    (neumann_solution lib d1
                       (prepared_source lib d1 level_set smooth_steps transform))
                    (dirichlet_solution lib d1 (ess_tdof_list d1)
                       (prepared_source lib d1 level_set smooth_steps transform))).
    + apply average_loop_length_only, average_loop_spec.
    + reflexivity.
Qed.

Lemma unconstrained_object_repeats_witness :
  bdr_attributes Demo2.closed_pmesh = []
  /\ exists d,
       DistanceFunction_ctor (Demo.lib false) Demo2.closed_pmesh 1 1 false = inl d
       /\ ess_tdof_list d = []
       /\ preconditioner_available (Demo.lib false) d = true
       /\ diffused_source
            (obj_of (ComputeDistance (Demo.lib false) Demo.level_set 0 true
               (obj_of (ComputeDistance (Demo.lib false) Demo.level_set 0 true d))))
          = diffused_source
              (obj_of (ComputeDistance (Demo.lib false) Demo.level_set 0 true d)).
Proof.
  split; [reflexivity|].
  eexists. split; [reflexivity|].
  match goal with
  | |- ess_tdof_list ?d = [] /\ _ =>
      destruct (unconstrained_object_repeats (Demo.lib false) Demo2.closed_pmesh 1 1
                  false Demo.level_set 0 true d) as [Hc Hr]
  end.
  pose proof (Hc eq_refl eq_refl) as He.
  split; [exact He|]. split; [reflexivity|].
  apply (Hr He eq_refl).
Defined.

(** ** Smoothing with a positive count *)

(** X9. With [0 < smooth_steps] the call runs the smoother exactly once,
    right after the projection and before the first linear system, for
    [smooth_steps] relaxations of type 0 on a zero right-hand side,
    started from the true-dof vector of the projection; what it gives
    back, transformed if asked, is the source of the diffusion. *)
Theorem positive_steps_smooth_once
        (lib : Library) (level_set : Coefficient lib) (smooth_steps : Z)
        (transform : bool) (d : DistanceFunction) :
  (0 < smooth_steps)%Z ->
  let o := ComputeDistance lib level_set smooth_steps transform d in
  let fes := pfes d in
  let p := ProjectCoefficient lib fes level_set in
  let s := SetFromTrueDofs lib fes
             (HypreSmoother_Mult lib fes 0 smooth_steps
                (repeat 0 (Laplacian_Width lib fes)) (GetTrueVector lib fes p)) in
  filter is_Ev_Smoother_Mult (trace_of o) = [Ev_Smoother_Mult smooth_steps]
  /\ take 3 (trace_of o)
     = [Ev_ProjectCoefficient; Ev_Smoother_Mult smooth_steps;
        Ev_FormLinearSystem form_a1 (ess_tdof_list d)]
  /\ source (obj_of o) = (if transform then transform_loop s else s).
Proof.
  intros Hk. cbn zeta.
  assert (Hb : (0 <? smooth_steps)%Z = true) by (apply Z.ltb_lt; exact Hk).
  rewrite ComputeDistance_source.
  unfold prepared_source, smoothed_source, smoothed. rewrite Hb.
  destruct (preconditioner_available lib d) eqn:Hav.
  - rewrite (ComputeDistance_returns lib level_set smooth_steps transform d Hav).
    cbn [trace_of]. unfold preparation_events. rewrite Hb. repeat split.
  - rewrite (ComputeDistance_aborts lib level_set smooth_steps transform d Hav).
    cbn [trace_of]. unfold preparation_events. rewrite Hb. repeat split.
Qed.

Lemma positive_steps_smooth_once_witness :
  (0 < 2)%Z
  /\ filter is_Ev_Smoother_Mult
       (trace_of (ComputeDistance (Demo.lib false) Demo.level_set 2 true
                                  (Demo.object false false)))
     = [Ev_Smoother_Mult 2].
Proof.
  split; [reflexivity|].
  apply (positive_steps_smooth_once (Demo.lib false) Demo.level_set 2 true
           (Demo.object false false)).
  reflexivity.
Defined.

(** ** The normalization and the constants *)

Lemma concat_shift (c : Q) (ds : list (list Q)) :
  concat (map (map (fun x => x + c)) ds) = map (fun x => x + c) (concat ds).
Proof. symmetry. apply concat_map. Qed.

(** The minimum of a shifted field is the shifted minimum. *)
Lemma Vector_Min_shift (c : Q) (v : list Q) (m m' : Q) :
  Vector_Min v = Some m ->
  Vector_Min (map (fun x => x + c) v) = Some m' ->
  m' == m + c.
Proof.
  intros Hm Hm'.
  pose proof (Vector_Min_spec v) as S. rewrite Hm in S. destruct S as [Hin Hlb].
  pose proof (Vector_Min_spec (map (fun x => x + c) v)) as S'.
  rewrite Hm' in S'. destruct S' as [Hin' Hlb'].
  apply Qle_antisym.
  - apply Hlb'. apply list_elem_of_fmap. exists m. auto.
  - apply list_elem_of_fmap in Hin' as (x & -> & Hx).
    specialize (Hlb x Hx). lra.
Qed.

Lemma rescale_nil (peers : list (option Q)) : rescale peers [] = [].
Proof. unfold rescale, Vector_sub_scalar. destruct (MPI_Allreduce_MIN _ _); reflexivity. Qed.

(** X10. The normalization forgets constants: adding one and the same
    number to every value of the solved field, on every rank, changes
    nothing in what the ranks are left with.  (The Poisson problem of
    step 2 has no constrained dof, so its solution is only fixed up to
    such a constant.) *)
Theorem rescale_all_shift_invariant (c : Q) (ds : list (list Q)) :
  Forall2 (Forall2 Qeq)
          (rescale_all (map (map (fun x => x + c)) ds))
          (rescale_all ds).
Proof.
  apply Forall2_same_length_lookup. split.
  { unfold rescale_all. rewrite !length_imap, length_map. reflexivity. }
  intros r out' out Hout' Hout.
  rewrite rescale_all_lookup in Hout', Hout.
  change (map (map (fun x => x + c)) ds) with (map (fun x => x + c) <$> ds) in Hout' at 2.
  rewrite list_lookup_fmap in Hout'.
  destruct (ds !! r) as [part|] eqn:Hr; [|discriminate].
  cbn in Hout', Hout. injection Hout as <-. injection Hout' as <-.
  destruct part as [|x0 part].
  { cbn [map]. rewrite !rescale_nil. constructor. }
  set (p := x0 :: part) in *.
  assert (Hp : x0 ∈ p) by left.
  assert (Hin : x0 ∈ concat ds).
  { apply elem_of_concat. exists p. split; [|exact Hp].
    apply list_elem_of_lookup. exists r. exact Hr. }
  destruct (Vector_Min_below _ _ Hin) as (m & Hm & _).
  assert (Hin' : (x0 + c) ∈ concat (map (map (fun x => x + c)) ds)).
  { rewrite concat_shift. apply list_elem_of_fmap. exists x0. auto. }
  destruct (Vector_Min_below _ _ Hin') as (m' & Hm' & _).
  assert (Hmm : m' == m + c).
  { rewrite concat_shift in Hm'. exact (Vector_Min_shift c _ m m' Hm Hm'). }
  assert (Hr' : map (map (fun x => x + c)) ds !! r = Some (map (fun x => x + c) p)).
  { change (map (map (fun x => x + c)) ds) with (map (fun x => x + c) <$> ds).
    rewrite list_lookup_fmap, Hr. reflexivity. }
  destruct (allreduce_global_min ds m r p Hm Hr) as (g & Hg & Hgm).
  destruct (allreduce_global_min _ m' r _ Hm' Hr') as (g' & Hg' & Hgm').
  unfold rescale, Vector_sub_scalar. rewrite Hg, Hg'.
  apply Forall2_fmap, Forall2_fmap_l.
  apply Forall_Forall2_diag, Forall_forall. intros x _.
  unfold compose. cbn beta. lra.
Qed.

(** X11. In a run on one rank, where no peer takes part in the
    reduction, a returning call whose Poisson solution has at least one
    value returns a field of the same size that takes the value zero and
    no negative value: the minimum of what the caller receives is 0. *)
Theorem single_rank_minimum_zero
        (lib : Library) (level_set : Coefficient lib) (smooth_steps : Z)
        (transform : bool) (d : DistanceFunction) :
  preconditioner_available lib d = true ->
  peers_d_min lib = [] ->
  let src := prepared_source lib d level_set smooth_steps transform in
  let diffused := average_loop (diffused_source d) (neumann_solution lib d src)
                               (dirichlet_solution lib d (ess_tdof_list d) src) in
  let solved := poisson_solution lib d diffused (distance d) in
  solved <> [] ->
  exists v d' tr,
    ComputeDistance lib level_set smooth_steps transform d = Ok v d' tr
    /\ length v = length solved
    /\ (exists y, y ∈ v /\ y == 0)
    /\ (forall y, y ∈ v -> 0 <= y).
Proof.
  intros Hav Hpeers. cbn zeta. intros Hne.
  rewrite (ComputeDistance_returns lib level_set smooth_steps transform d Hav).
  cbn zeta. eexists _, _, _. split; [reflexivity|].
  set (solved := poisson_solution lib d _ (distance d)) in *.
  rewrite Hpeers.
  split; [|split; [|intros y; apply rescale_nonneg]].
  - unfold rescale, Vector_sub_scalar.
    destruct (MPI_Allreduce_MIN (Vector_Min solved) []); [apply length_map | reflexivity].
  - pose proof (Vector_Min_spec solved) as S.
    unfold rescale, MPI_Allreduce_MIN. cbn [fold_right].
    destruct (Vector_Min solved) as [m|]; [|contradiction].
    destruct S as [Hin _]. cbn [dmin Vector_sub_scalar].
    exists (m - m). split; [|ring].
    apply list_elem_of_fmap. exists m. auto.
Qed.

Lemma single_rank_minimum_zero_witness :
  preconditioner_available (Demo.lib false) (Demo.object false false) = true
  /\ peers_d_min (Demo.lib false) = []
  /\ exists v d' tr,
       ComputeDistance (Demo.lib false) Demo.level_set 0 true (Demo.object false false)
       = Ok v d' tr
       /\ length v = 3%nat
       /\ exists y, y ∈ v /\ y == 0.
Proof.
  split; [reflexivity|]. split; [reflexivity|].
  destruct (single_rank_minimum_zero (Demo.lib false) Demo.level_set 0 true
              (Demo.object false false) eq_refl eq_refl)
    as (v & d' & tr & Hrun & Hlen & Hzero & _).
  - vm_compute. discriminate.
  - exists v, d', tr. split; [exact Hrun|]. split; [|exact Hzero].
    rewrite Hlen. reflexivity.
Defined.

(** ** The boundary markers *)

Lemma fold_left_Zmax_ge (l : list Z) (a : Z) :
  (a <= fold_left Z.max l a)%Z /\ forall x, In x l -> (x <= fold_left Z.max l a)%Z.
Proof.
  revert a. induction l as [|y l IH]; intros a; cbn [fold_left].
  - split; [lia | intros x []].
  - destruct (IH (Z.max a y)) as [H1 H2]. split; [lia|].
    intros x [->|Hx]; [lia | apply H2, Hx].
Qed.

Lemma Array_Max_ge (l : list Z) (x : Z) : In x l -> (x <= Array_Max l)%Z.
Proof.
  destruct l as [|y l]; [intros []|]. cbn [Array_Max].
  destruct (fold_left_Zmax_ge l y) as [H1 H2].
  intros [<-|Hx]; [exact H1 | apply H2, Hx].
Qed.

Lemma repeat_lookup {A : Type} (x : A) (n i : nat) :
  (i < n)%nat -> repeat x n !! i = Some x.
Proof.
  revert i. induction n as [|n IH]; intros i Hi; [lia|].
  destruct i as [|i]; [reflexivity|]. cbn. apply IH. lia.
Qed.

(** X12. On a mesh with boundary attributes the constructor asks the space
    for the essential dofs of a marker array made of ones only, as long as
    the largest attribute: for every attribute [a >= 1] the entry of index
    [a - 1] is there and is 1, so no boundary attribute is left out. *)
Theorem constructor_marks_all_attributes
        (lib : Library) (pmesh : ParMesh) (order : Z) (diff_coeff : Q)
        (use_amgx_ : bool) (d : DistanceFunction) :
  bdr_attributes pmesh <> [] ->
  DistanceFunction_ctor lib pmesh order diff_coeff use_amgx_ = inl d ->
  exists ess_bdr : list Z,
    ess_tdof_list d = GetEssentialTrueDofs lib (pfes d) ess_bdr
    /\ Z.of_nat (length ess_bdr) = Z.max 0 (Array_Max (bdr_attributes pmesh))
    /\ Forall (fun marker => marker = 1%Z) ess_bdr
    /\ forall a, In a (bdr_attributes pmesh) -> (1 <= a)%Z ->
         ess_bdr !! Z.to_nat (a - 1) = Some 1%Z.
Proof.
  intros Hne Hc. unfold DistanceFunction_ctor in Hc.
  destruct (mesh_size lib pmesh order); [|discriminate].
  injection Hc as <-. cbn [ess_tdof_list pfes]. unfold essential_dofs. cbn [GetMesh].
  destruct (bdr_attributes pmesh) as [|a0 attrs] eqn:Hb; [contradiction|].
  cbn [length Nat.eqb]. rewrite <- Hb.
  exists (repeat 1%Z (Z.to_nat (Array_Max (bdr_attributes pmesh)))).
  split; [reflexivity|]. split; [rewrite repeat_length; lia|].
  split.
  - apply Forall_forall. intros x Hx. apply list_elem_of_In in Hx.
    exact (repeat_spec _ _ _ Hx).
  - intros a Ha H1. pose proof (Array_Max_ge _ _ Ha) as Hle.
    apply repeat_lookup. lia.
Qed.

Lemma constructor_marks_all_attributes_witness :
  bdr_attributes Demo.pmesh <> []
  /\ In 2%Z (bdr_attributes Demo.pmesh)
  /\ exists d ess_bdr,
       DistanceFunction_ctor (Demo.lib false) Demo.pmesh 1 1 false = inl d
       /\ ess_tdof_list d = GetEssentialTrueDofs (Demo.lib false) (pfes d) ess_bdr
       /\ ess_bdr !! 1%nat = Some 1%Z.
Proof.
  assert (Hin : In 2%Z (bdr_attributes Demo.pmesh)) by (right; left; reflexivity).
  split; [discriminate|]. split; [exact Hin|].
  eexists.
  match goal with
  | |- exists _, ?c = inl ?d /\ _ =>
      destruct (constructor_marks_all_attributes (Demo.lib false) Demo.pmesh 1 1 false d)
        as (ess_bdr & He & _ & _ & Hm); [discriminate | reflexivity |]
  end.
  exists ess_bdr. split; [reflexivity|]. split; [exact He|].
  apply (Hm 2%Z Hin). lia.
Defined.
